(** * Streaming chat transport and history pagination

    A shallow embedding of two pieces of the patient chat client:

    - [sendChatStreamMessage] of the API service (lib/api): the request,
      the server-sent-event line decoder with its carry-over buffer, and
      the four callbacks [onInit], [onDelta], [onComplete], [onError];
    - the [useChatHistory] hook: the message list, the loaded-id set and
      the operations [loadInitialMessages], [loadMoreMessages] and
      [clearHistory].

    Text is modelled as [string]; a character stands for one code unit
    below 256.  The streaming [TextDecoder] is taken to have run already:
    a chunk is the text it returned for one [reader.read()].  Callbacks
    are recorded in a trace, in call order, and are assumed to return
    normally. *)

From Stdlib Require Import String Ascii List ZArith Lia Bool Sorted.
From stdpp Require Import base decidable list gmap strings pretty.
Import ListNotations.

Set Warnings "-register-all".

Local Open Scope string_scope.
Local Open Scope list_scope.

(** ** JavaScript string primitives *)

Module JsString.

Definition LF : ascii := "010"%char.
Definition CR : ascii := "013"%char.
Definition DQ : ascii := "034"%char.
Definition BACKSLASH : ascii := "092"%char.

(** [ln s] is the line [s] followed by its newline terminator. *)
Definition ln (s : string) : string := s +:+ String LF "".

(** [quoted s] is [s] between double quotes. *)
Definition quoted (s : string) : string := String DQ (s +:+ String DQ "").

(** Head of the first piece of a split. *)
Definition cons_head (c : ascii) (pieces : list string) : list string :=
  match pieces with
  | [] => [String c ""]
  | p :: ps => String c p :: ps
  end.

(** [s.split('\n')]: the pieces between newlines; never empty. *)
Fixpoint split_LF (s : string) : list string :=
  match s with
  | "" => [""]
  | String c s' =>
      if Ascii.eqb c LF then "" :: split_LF s'
      else cons_head c (split_LF s')
  end.

(** [lines.pop() || '']: the last piece, [''] when there is none. *)
Definition pop (lines : list string) : string := List.last lines "".

(** What is left in [lines] after [lines.pop()]. *)
Definition popped (lines : list string) : list string := List.removelast lines.

(** [s.startsWith(p)] *)
Fixpoint startsWith (p s : string) : bool :=
  match p, s with
  | "", _ => true
  | String a p', String b s' => (Ascii.eqb a b && startsWith p' s')%bool
  | String _ _, "" => false
  end.

(** [s.slice(n)] for [0 <= n]. *)
Fixpoint slice (n : nat) (s : string) : string :=
  match n, s with
  | O, _ => s
  | S n', String _ s' => slice n' s'
  | S _, "" => ""
  end.

(** White space and line terminators of [trim] with a code below 256. *)
Definition is_space (c : ascii) : bool :=
  let n := nat_of_ascii c in
  (Nat.eqb n 9 || Nat.eqb n 10 || Nat.eqb n 11 || Nat.eqb n 12
   || Nat.eqb n 13 || Nat.eqb n 32 || Nat.eqb n 160)%bool.

Fixpoint trimStart (s : string) : string :=
  match s with
  | "" => ""
  | String c s' => if is_space c then trimStart s' else s
  end.

Fixpoint trimEnd (s : string) : string :=
  match s with
  | "" => ""
  | String c s' =>
      match trimEnd s' with
      | "" => if is_space c then "" else String c ""
      | t => String c t
      end
  end.

(** [s.trim()] *)
Definition trim (s : string) : string := trimEnd (trimStart s).

(** [s.replace(/\\x/g, r)]: every backslash followed by [x] becomes [r],
    scanning left to right. *)
Fixpoint replace_escape (x r : ascii) (s : string) : string :=
  match s with
  | "" => ""
  | String a s' =>
      match s' with
      | String b s'' =>
          if (Ascii.eqb a BACKSLASH && Ascii.eqb b x)%bool
          then String r (replace_escape x r s'')
          else String a (replace_escape x r s')
      | "" => String a ""
      end
  end.

(** [data.replace(/\\n/g, '\n').replace(/\\r/g, '\r')] *)
Definition unescape (data : string) : string :=
  replace_escape "r"%char CR (replace_escape "n"%char LF data).

(** No newline occurs in [s]. *)
Fixpoint newline_free (s : string) : bool :=
  match s with
  | "" => true
  | String c s' => (negb (Ascii.eqb c LF) && newline_free s')%bool
  end.

End JsString.

(** ** JSON values as seen by the decoder *)

Module Json.

(** A number, kept as the two things the code can observe of it: whether
    it is falsy (0, -0 or NaN) and the text [String(x)] gives for it. *)
Record Number : Type := mkNumber {
  is_zero_or_NaN : bool;
  rendered : string
}.

Inductive JsValue : Type :=
| JsUndefined
| JsNull
| JsBool (b : bool)
| JsNumber (x : Number)
| JsString (s : string)
| JsArray (items : list JsValue)
| JsObject (fields : list (string * JsValue)).

(** Own property of an object: first entry stored under [key]. *)
Fixpoint own_property (key : string) (fields : list (string * JsValue))
  : JsValue :=
  match fields with
  | [] => JsUndefined
  | (k, v) :: rest => if String.eqb k key then v else own_property key rest
  end.

(** [v.key] for a key that names no built-in property.  [None] stands for
    the TypeError raised on [null] and [undefined]. *)
Definition js_get (v : JsValue) (key : string) : option JsValue :=
  match v with
  | JsUndefined | JsNull => None
  | JsObject fields => Some (own_property key fields)
  | _ => Some JsUndefined
  end.

(** Truthiness, as used by [if (v)] and [v || w]. *)
Definition truthy (v : JsValue) : bool :=
  match v with
  | JsUndefined | JsNull => false
  | JsBool b => b
  | JsNumber x => negb (is_zero_or_NaN x)
  | JsString s => negb (String.eqb s "")
  | JsArray _ | JsObject _ => true
  end.

(** [String(v)], the message of [new Error(v)]. *)
Fixpoint ToString (v : JsValue) : string :=
  match v with
  | JsUndefined => "undefined"
  | JsNull => "null"
  | JsBool true => "true"
  | JsBool false => "false"
  | JsNumber x => rendered x
  | JsString s => s
  | JsArray items =>
      (fix join (l : list JsValue) : string :=
         match l with
         | [] => ""
         | x :: rest =>
             let piece := match x with
                          | JsUndefined | JsNull => ""
                          | _ => ToString x
                          end in
             match rest with
             | [] => piece
             | _ :: _ => piece +:+ "," +:+ join rest
             end
         end) items
  | JsObject _ => "[object Object]"
  end.

(** Message of the TypeError raised by reading [key] of [null]. *)
Definition TypeError_null (key : string) : string :=
  "Cannot read properties of null (reading '" +:+ key +:+ "')".

End Json.

(** ** The API service: [sendChatStreamMessage] *)

Module Api.
Import JsString Json.

(** One observable call made by [sendChatStreamMessage]. *)
Inductive Call : Type :=
| OnInit (conversationId : JsValue)
| OnDelta (text : string)
| OnComplete
| OnError (error : JsValue)
| ConsoleWarn (data : string)
| ConsoleError (message : string).

(** How [reader.read()] ends after the last chunk. *)
Inductive ReadEnd : Type :=
| Done
| ReadRejected (message : string).

Record Body : Type := mkBody {
  chunks : list string;
  ending : ReadEnd
}.

(** The part of a [Response] that [sendChatStreamMessage] looks at.
    [status] is an unsigned short, printed in decimal.  [json] is what
    [response.json()] resolves to, [None] when it rejects. *)
Record Response : Type := mkResponse {
  ok : bool;
  status : Z;
  json : option JsValue;
  body : option Body
}.

(** What [await fetch(...)] does. *)
Inductive FetchOutcome : Type :=
| FetchRejected (message : string)
| FetchResolved (response : Response).

(** Result of a block that may throw an [Error]. *)
Inductive Completion (A : Type) : Type :=
| Normal (a : A)
| Throw (message : string).
Arguments Normal {A} a.
Arguments Throw {A} message.

(** State of the promise returned by an async function. *)
Inductive Promise : Type :=
| Fulfilled
| Rejected (message : string).

(** A computation that makes calls and then completes. *)
Definition Traced (A : Type) : Type := (list Call * Completion A)%type.

Definition ret {A} (a : A) : Traced A := ([], Normal a).
Definition throw {A} (message : string) : Traced A := ([], Throw message).
Definition emit (calls : list Call) : Traced unit := (calls, Normal tt).

Definition bind {A B} (m : Traced A) (k : A -> Traced B) : Traced B :=
  match m with
  | (calls, Normal a) => let '(calls', r) := k a in (calls ++ calls', r)
  | (calls, Throw message) => (calls, Throw message)
  end.

Notation "x <- m ;; k" := (bind m (fun x => k))
  (at level 100, m at next level, right associativity).
Notation "m ;;; k" := (bind m (fun _ => k))
  (at level 100, right associativity).

Section Decoder.

(** [JSON.parse]; [None] when it throws. *)
Variable JSON_parse : string -> option JsValue.

(** The body of [else if (line.startsWith('data: '))] up to the reset:
    the calls made for payload [data] under [currentEvent]. *)
Definition on_data (currentEvent data : string) : list Call :=
  if String.eqb currentEvent "init" then
    match JSON_parse data with
    | Some parsed =>
        match js_get parsed "conversationId" with
        | Some conversationId =>
            if truthy conversationId then [OnInit conversationId] else []
        | None => [ConsoleWarn data]
        end
    | None => [ConsoleWarn data]
    end
  else if String.eqb currentEvent "complete" then [OnComplete]
  else if String.eqb currentEvent "error" then
    match JSON_parse data with
    | Some parsed =>
        match js_get parsed "error" with
        | Some error =>
            [OnError (if truthy error then error
                      else JsString "Unknown error")]
        | None => [OnError (JsString data)]
        end
    | None => [OnError (JsString data)]
    end
  else [OnDelta (unescape data)].

(** One turn of [for (const line of lines)]: the new [currentEvent] and
    the calls made. *)
Definition process_line (currentEvent line : string) : string * list Call :=
  if startsWith "event: " line then (trim (slice 7 line), [])
  else if startsWith "data: " line then
    let data := trim (slice 6 line) in
    let calls := on_data currentEvent data in
    (if String.eqb (trim line) "" then "" else currentEvent, calls)
  else (currentEvent, []).

Fixpoint for_lines (currentEvent : string) (lines : list string)
  : string * list Call :=
  match lines with
  | [] => (currentEvent, [])
  | line :: rest =>
      let '(currentEvent', calls) := process_line currentEvent line in
      let '(final, calls') := for_lines currentEvent' rest in
      (final, calls ++ calls')
  end.

(** One turn of [while (true)] for a chunk [value] that is not the end:
    the calls made and the new [buffer]. *)
Definition on_chunk (buffer value : string) : list Call * string :=
  let buffer1 := buffer +:+ value in
  let lines := split_LF buffer1 in
  let buffer2 := pop lines in
  let currentEvent := "" in
  (snd (for_lines currentEvent (popped lines)), buffer2).

(** The [while (true)] loop over the chunks read before the end. *)
Fixpoint read_loop (buffer : string) (values : list string)
  : list Call * string :=
  match values with
  | [] => ([], buffer)
  | value :: rest =>
      let '(calls, buffer') := on_chunk buffer value in
      let '(calls', final) := read_loop buffer' rest in
      (calls ++ calls', final)
  end.

(** The message thrown for a response that is not [ok]. *)
Definition http_error (response : Response) : Traced unit :=
  let errorData := match json response with
                   | Some v => v
                   | None => JsObject []
                   end in
  match js_get errorData "error" with
  | Some error =>
      throw (if truthy error then ToString error
             else "HTTP error: " +:+ pretty (status response))
  | None => throw (TypeError_null "error")
  end.

(** The [try] block. *)
Definition try_block (outcome : FetchOutcome) : Traced unit :=
  response <- match outcome with
              | FetchRejected message => throw message
              | FetchResolved response => ret response
              end ;;
  (if ok response then ret tt else http_error response) ;;;
  stream <- match body response with
            | Some stream => ret stream
            | None => throw "No response body"
            end ;;
  emit (fst (read_loop "" (chunks stream))) ;;;
  match ending stream with
  | Done => emit [OnComplete]
  | ReadRejected message => throw message
  end.

(** [sendChatStreamMessage]: the calls it makes, in order, and the state
    of the promise it returns, for a given behaviour of [fetch]. *)
Definition sendChatStreamMessage (outcome : FetchOutcome)
  : list Call * Promise :=
  match try_block outcome with
  | (calls, Normal _) => (calls, Fulfilled)
  | (calls, Throw message) =>
      (calls ++ [ConsoleError message; OnError (JsString message)], Fulfilled)
  end.

(** A successful response that streams [values] and then ends. *)
Definition streaming (values : list string) : FetchOutcome :=
  FetchResolved (mkResponse true 200 None (Some (mkBody values Done))).

End Decoder.

(** The text received: all chunks, in order. *)
Definition received (values : list string) : string :=
  fold_right String.append "" values.

(** The complete lines handed to [for (const line of lines)], over all
    turns of the loop, starting with [buffer]. *)
Fixpoint lines_seen (buffer : string) (values : list string) : list string :=
  match values with
  | [] => []
  | value :: rest =>
      let lines := split_LF (buffer +:+ value) in
      popped lines ++ lines_seen (pop lines) rest
  end.

(** [line] is an [event: ] line that names the event [complete]. *)
Definition names_complete (line : string) : bool :=
  (startsWith "event: " line
   && String.eqb (trim (slice 7 line)) "complete")%bool.




(** The text before the first double quote and the text after it. *)
Fixpoint until_DQ (s : string) : option (string * string) :=
  match s with
  | "" => None
  | String c s' =>
      if Ascii.eqb c DQ then Some ("", s')
      else if (Ascii.eqb c BACKSLASH || Nat.ltb (nat_of_ascii c) 32)%bool
      then None
      else match until_DQ s' with
           | Some (before, after) => Some (String c before, after)
           | None => None
           end
  end.

(** [JSON.parse] restricted to the text [{}] and to objects with one
    member whose name and value are strings without escapes, written
    without white space.  It returns what [JSON.parse] returns on these
    and rejects any other text; the examples apply it to such objects and
    to text that is not JSON. *)
Definition JSON_parse_flat (text : string) : option JsValue :=
  if String.eqb text "{}" then Some (JsObject [])
  else
    match text with
    | String open (String q rest) =>
        if (Ascii.eqb open "{" && Ascii.eqb q DQ)%bool then
          match until_DQ rest with
          | Some (key, String colon (String q' rest')) =>
              if (Ascii.eqb colon ":" && Ascii.eqb q' DQ)%bool then
                match until_DQ rest' with
                | Some (value, "}") => Some (JsObject [(key, JsString value)])
                | _ => None
                end
              else None
          | _ => None
          end
        else None
    | _ => None
    end.

Definition is_complete (c : Call) : bool :=
  match c with OnComplete => true | _ => false end.

(** Number of [onComplete] calls in a trace. *)
Definition completions (calls : list Call) : nat :=
  length (List.filter is_complete calls).

End Api.

(** ** The history hook: [useChatHistory] *)

Module History.
Import Api.

Inductive MessageType : Type := USER | ASSISTANT.

(** [MessageDto].  [createdAt] is the instant its ISO text denotes, in
    milliseconds since the epoch. *)
Record MessageDto : Type := mkDto {
  dto_id : Z;
  dto_content : string;
  dto_type : MessageType;
  createdAt : Z
}.

Inductive Sender : Type := user | misha.

(** [Message].  [timestamp] is the [Date], in milliseconds since the
    epoch. *)
Record Message : Type := mkMessage {
  id : string;
  content : string;
  sender : Sender;
  timestamp : Z
}.

Record PagedMessagesResponse : Type := mkPage {
  page_messages : list MessageDto;
  page : Z;
  size : Z;
  totalElements : Z;
  totalPages : Z;
  hasMore : bool;
  page_conversationId : string
}.

(** [n.toString()] for a safe integer [n], one of magnitude below 2^53:
    the decimal digits.  Ids of messages and readings of the clock are
    such numbers; beyond that range a number is not every integer, and
    from 10^21 on the text is in exponent form. *)
Definition toString (n : Z) : string := pretty n.

Definition convertToMessage (dto : MessageDto) : Message :=
  {| id := toString (dto_id dto);
     content := dto_content dto;
     sender := match dto_type dto with USER => user | ASSISTANT => misha end;
     timestamp := createdAt dto |}.

(** The state cells of one hook instance and the [loadedMessageIds] ref. *)
Record Hook : Type := mkHook {
  messages : list Message;
  conversationId : option string;
  hasMoreMessages : bool;
  isLoadingHistory : bool;
  isLoadingMore : bool;
  currentPage : Z;
  loadedMessageIds : gset string
}.

Definition setMessages (f : list Message -> list Message) (h : Hook) : Hook :=
  mkHook (f (messages h)) (conversationId h) (hasMoreMessages h)
    (isLoadingHistory h) (isLoadingMore h) (currentPage h)
    (loadedMessageIds h).

Definition setConversationId (c : option string) (h : Hook) : Hook :=
  mkHook (messages h) c (hasMoreMessages h) (isLoadingHistory h)
    (isLoadingMore h) (currentPage h) (loadedMessageIds h).

Definition setHasMoreMessages (b : bool) (h : Hook) : Hook :=
  mkHook (messages h) (conversationId h) b (isLoadingHistory h)
    (isLoadingMore h) (currentPage h) (loadedMessageIds h).

Definition setIsLoadingHistory (b : bool) (h : Hook) : Hook :=
  mkHook (messages h) (conversationId h) (hasMoreMessages h) b
    (isLoadingMore h) (currentPage h) (loadedMessageIds h).

Definition setIsLoadingMore (b : bool) (h : Hook) : Hook :=
  mkHook (messages h) (conversationId h) (hasMoreMessages h)
    (isLoadingHistory h) b (currentPage h) (loadedMessageIds h).

Definition setCurrentPage (n : Z) (h : Hook) : Hook :=
  mkHook (messages h) (conversationId h) (hasMoreMessages h)
    (isLoadingHistory h) (isLoadingMore h) n (loadedMessageIds h).

Definition setLoadedMessageIds (s : gset string) (h : Hook) : Hook :=
  mkHook (messages h) (conversationId h) (hasMoreMessages h)
    (isLoadingHistory h) (isLoadingMore h) (currentPage h) s.

(** [useState] initial values and a fresh [Set]. *)
Definition initial : Hook := mkHook [] None false false false 0 ∅.

(** [set.has(x)] *)
Definition has (s : gset string) (x : string) : bool := bool_decide (x ∈ s).

(** [msgs.forEach(msg => set.add(msg.id))] *)
Definition add_ids (msgs : list Message) (s : gset string) : gset string :=
  foldl (fun acc msg => acc ∪ {[ id msg ]}) s msgs.

(** [!s] for [s : string | null]. *)
Definition falsy (s : option string) : bool :=
  match s with
  | None => true
  | Some x => String.eqb x ""
  end.

(** A request sent to the backend. *)
Inductive Request : Type :=
| GetInitialMessages (conversation : string) (size : Z)
| GetMessagesForConversation (conversation : string) (page size : Z).

(** How an awaited request settles. *)
Inductive Settled : Type :=
| Resolves (response : PagedMessagesResponse)
| Rejects (message : string).

(** *** [loadInitialMessages] *)

(** Up to the [await]: the request sent, [None] after the early return. *)
Definition loadInitialMessages_start (initialPageSize : Z) (convId : string)
    (h : Hook) : Hook * option Request :=
  if falsy (Some convId) then (h, None)
  else
    let h1 := setIsLoadingHistory true h in
    let h2 := setLoadedMessageIds ∅ h1 in
    (h2, Some (GetInitialMessages convId initialPageSize)).

(** The rest of the [try] block once the request has settled. *)
Definition loadInitialMessages_try (convId : string) (s : Settled) (h : Hook)
  : Hook * Completion unit :=
  match s with
  | Rejects message => (h, Throw message)
  | Resolves response =>
      let convertedMessages := map convertToMessage (page_messages response) in
      let h1 := setLoadedMessageIds
                  (add_ids convertedMessages (loadedMessageIds h)) h in
      let h2 := setMessages (fun _ => convertedMessages) h1 in
      let h3 := setHasMoreMessages (hasMore response) h2 in
      let h4 := setCurrentPage 0 h3 in
      (setConversationId (Some convId) h4, Normal tt)
  end.

(** From the [await] on: [try] rest, [catch] (logs only), [finally]. *)
Definition loadInitialMessages_resume (convId : string) (s : Settled)
    (h : Hook) : Hook * Promise :=
  let '(h1, _) := loadInitialMessages_try convId s h in
  (setIsLoadingHistory false h1, Fulfilled).

(** A whole call during which nothing else touches the hook. *)
Definition loadInitialMessages (initialPageSize : Z) (convId : string)
    (backend : Request -> Settled) (h : Hook) : Hook * Promise :=
  match loadInitialMessages_start initialPageSize convId h with
  | (h1, None) => (h1, Fulfilled)
  | (h1, Some request) => loadInitialMessages_resume convId (backend request) h1
  end.

(** *** [loadMoreMessages] *)

(** The values a [loadMoreMessages] closure holds: the dependency list of
    its [useCallback], read from the state of the render that made it. *)
Record LoadMore : Type := mkLoadMore {
  seen_conversationId : option string;
  seen_hasMoreMessages : bool;
  seen_isLoadingMore : bool;
  seen_currentPage : Z;
  pageSize : Z
}.

(** The closure made by a render in state [h]. *)
Definition render (pageSize : Z) (h : Hook) : LoadMore :=
  mkLoadMore (conversationId h) (hasMoreMessages h) (isLoadingMore h)
    (currentPage h) pageSize.

(** [!conversationId || !hasMoreMessages || isLoadingMore] *)
Definition guard (f : LoadMore) : bool :=
  (falsy (seen_conversationId f) || negb (seen_hasMoreMessages f)
   || seen_isLoadingMore f)%bool.

(** Up to the [await]: the request sent, [None] after the early return. *)
Definition loadMoreMessages_start (f : LoadMore) (h : Hook)
  : Hook * option Request :=
  if guard f then (h, None)
  else
    let h1 := setIsLoadingMore true h in
    let nextPage := (seen_currentPage f + 1)%Z in
    (h1, Some (GetMessagesForConversation
                 (default "" (seen_conversationId f)) nextPage (pageSize f))).

(** The messages of a page that are not loaded yet, converted. *)
Definition newMessages (loaded : gset string) (dtos : list MessageDto)
  : list Message :=
  map convertToMessage
    (List.filter (fun dto => negb (has loaded (toString (dto_id dto)))) dtos).

(** The rest of the [try] block once the request has settled. *)
Definition loadMoreMessages_try (f : LoadMore) (s : Settled) (h : Hook)
  : Hook * Completion unit :=
  match s with
  | Rejects message => (h, Throw message)
  | Resolves response =>
      let nextPage := (seen_currentPage f + 1)%Z in
      let new := newMessages (loadedMessageIds h) (page_messages response) in
      let h1 := setLoadedMessageIds (add_ids new (loadedMessageIds h)) h in
      let h2 := setMessages (fun prev => new ++ prev) h1 in
      let h3 := setHasMoreMessages (hasMore response) h2 in
      (setCurrentPage nextPage h3, Normal tt)
  end.

(** From the [await] on: [try] rest, [catch] (logs only), [finally]. *)
Definition loadMoreMessages_resume (f : LoadMore) (s : Settled) (h : Hook)
  : Hook * Promise :=
  let '(h1, _) := loadMoreMessages_try f s h in
  (setIsLoadingMore false h1, Fulfilled).

(** A whole call during which nothing else touches the hook. *)
Definition loadMoreMessages (f : LoadMore) (backend : Request -> Settled)
    (h : Hook) : Hook * Promise :=
  match loadMoreMessages_start f h with
  | (h1, None) => (h1, Fulfilled)
  | (h1, Some request) => loadMoreMessages_resume f (backend request) h1
  end.

(** *** [clearHistory] *)

Definition clearHistory (h : Hook) : Hook :=
  let h1 := setMessages (fun _ => []) h in
  let h2 := setConversationId None h1 in
  let h3 := setHasMoreMessages false h2 in
  let h4 := setCurrentPage 0 h3 in
  setLoadedMessageIds ∅ h4.

(** *** Properties of a message list *)

(** Oldest first. *)
Definition chronological (l : list Message) : Prop :=
  StronglySorted Z.le (map timestamp l).

(** Newest first. *)
Definition newest_first (l : list MessageDto) : Prop :=
  StronglySorted Z.ge (map createdAt l).

(** The ids of a page as the hook compares them. *)
Definition page_ids (dtos : list MessageDto) : list string :=
  map (fun dto => toString (dto_id dto)) dtos.

(** How many messages of a page are loaded already. *)
Definition overlapCount (loaded : gset string) (dtos : list MessageDto) : nat :=
  length (List.filter (fun dto => has loaded (toString (dto_id dto))) dtos).

(** *** Sample data *)

(** A hook with conversation [c1], more pages to load and nothing
    loaded. *)
Definition ready : Hook := mkHook [] (Some "c1") true false false 0 ∅.

(** A user message with id [n] created at [instant]. *)
Definition sample (n : Z) (instant : Z) : MessageDto :=
  mkDto n "text" USER instant.

(** A response of conversation [c1] that carries [dtos]. *)
Definition page_of (dtos : list MessageDto) : PagedMessagesResponse :=
  mkPage dtos 0 20 (Z.of_nat (length dtos)) 1 false "c1".

(** A hook that shows message 100 of conversation [c1]. *)
Definition showing_100 : Hook :=
  mkHook [convertToMessage (sample 100 1000)] (Some "c1") true false false 0
    {[ "100" ]}.

End History.

(** ** Escapes in a payload *)

Module Escapes.
Import JsString.

(** [s] contains the character [a]. *)
Fixpoint has_char (a : ascii) (s : string) : bool :=
  match s with
  | "" => false
  | String c s' => (Ascii.eqb c a || has_char a s')%bool
  end.

(** [s] contains the character [a] immediately followed by [b]. *)
Fixpoint has_pair (a b : ascii) (s : string) : bool :=
  match s with
  | "" => false
  | String c s' =>
      match s' with
      | "" => false
      | String d _ => ((Ascii.eqb c a && Ascii.eqb d b) || has_pair a b s')%bool
      end
  end.

End Escapes.

(** ** Streams of plain data lines *)

Module Stream.
Import JsString Json Api.

(** What a line does while [currentEvent] is ['']: a [data: ] line passes
    its payload, trimmed and unescaped, to [onDelta]; any other line makes
    no call. *)
Definition delta_of (line : string) : list Call :=
  if startsWith "event: " line then []
  else if startsWith "data: " line
       then [OnDelta (unescape (trim (slice 6 line)))]
       else [].

Definition deltas (lines : list string) : list Call :=
  List.flat_map delta_of lines.

(** The value passed to [onInit], if [c] is such a call, is truthy. *)
Definition init_is_truthy (c : Call) : bool :=
  match c with
  | OnInit conversationId => truthy conversationId
  | _ => true
  end.

End Stream.

(** ** The history hook: the remaining operations *)

Module HistoryOps.
Import Api History.

(** The loaded-id set holds exactly the ids of the listed messages. *)
Definition tracked (h : Hook) : Prop :=
  forall x, x ∈ loadedMessageIds h <-> In x (map id (messages h)).

(** Successive [loadMoreMessages] calls, each made through the closure of
    the latest render and each settled before the next, the backend
    answering with [responses] in order. *)
Fixpoint load_pages (pageSize : Z) (responses : list PagedMessagesResponse)
    (h : Hook) : Hook :=
  match responses with
  | [] => h
  | response :: rest =>
      load_pages pageSize rest
        (fst (loadMoreMessages (render pageSize h)
                (fun _ => Resolves response) h))
  end.

Inductive ConversationStatus : Type := ACTIVE | ARCHIVED | COMPLETED.

Record ConversationDto : Type := mkConversation {
  conversation_id : Z;
  externalConversationId : string;
  status : ConversationStatus;
  initialSymptom : option string;
  conversation_createdAt : string;
  updatedAt : string;
  messageCount : Z;
  lastMessage : option MessageDto
}.

(** How [api.getActiveConversationForPatient] settles: with a conversation,
    with [null] (status 204), or by rejecting. *)
Inductive ActiveSettled : Type :=
| ActiveResolves (conversation : option ConversationDto)
| ActiveRejects (message : string).

(** [!n] for [n : number | null], [n] an integer. *)
Definition falsy_number (n : option Z) : bool :=
  match n with
  | None => true
  | Some z => Z.eqb z 0
  end.

(** [loadActiveConversation], nothing else touching the hook meanwhile:
    the state it leaves and the value its promise is fulfilled with.
    [initialPageSize] is the one held by the [loadInitialMessages] it
    calls. *)
Definition loadActiveConversation (patientId : option Z)
    (initialPageSize : Z) (active : Z -> ActiveSettled)
    (backend : Request -> Settled) (h : Hook)
  : Hook * option ConversationDto :=
  if falsy_number patientId then (h, None)
  else
    let h1 := setIsLoadingHistory true h in
    match active (default 0%Z patientId) with
    | ActiveResolves (Some conversation) =>
        let h2 := setConversationId
                    (Some (externalConversationId conversation)) h1 in
        let h3 := fst (loadInitialMessages initialPageSize
                         (externalConversationId conversation) backend h2) in
        (setIsLoadingHistory false h3, Some conversation)
    | ActiveResolves None => (setIsLoadingHistory false h1, None)
    | ActiveRejects _ => (setIsLoadingHistory false h1, None)
    end.

End HistoryOps.

(** ** The chat page: [handleSendMessage] and its callbacks *)

Module Chat.
Import History.

(** What the four reads of the clock in [handleSendMessage] return:
    [Date.now()] and [new Date()] for the user message, then for the
    assistant message. *)
Record Clock : Type := mkClock {
  user_now : Z;
  user_date : Z;
  assistant_now : Z;
  assistant_date : Z
}.

(** The state cells of the page that [handleSendMessage] writes. *)
Record Page : Type := mkChatPage {
  shown : list Message;
  isTyping : bool
}.

(** The page state together with the variable [assistantContent] of one
    [handleSendMessage] call. *)
Record Sending : Type := mkSending {
  page_state : Page;
  assistantContent : string
}.

Definition apology : string :=
  "Lo siento, no pude procesar tu mensaje. Intenta de nuevo.".

(** [prev.map(msg => msg.id === assistantId ? { ...msg, content } : msg)] *)
Definition with_content (assistantId content : string) (prev : list Message)
  : list Message :=
  map (fun msg =>
         if String.eqb (id msg) assistantId
         then mkMessage (id msg) content (sender msg) (timestamp msg)
         else msg) prev.

Definition userMessage (clock : Clock) (messageText : string) : Message :=
  mkMessage (toString (user_now clock)) messageText user (user_date clock).

Definition assistantId (clock : Clock) : string :=
  toString (assistant_now clock + 1).

Definition placeholder (clock : Clock) : Message :=
  mkMessage (assistantId clock) "" misha (assistant_date clock).

(** [handleSendMessage] up to the call of [sendStreamMessage]. *)
Definition handleSendMessage_start (clock : Clock) (messageText : string)
    (p : Page) : Sending :=
  let shown1 := shown p ++ [userMessage clock messageText] in
  let shown2 := shown1 ++ [placeholder clock] in
  mkSending (mkChatPage shown2 true) "".

(** The delta callback passed to [sendStreamMessage]. *)
Definition onDelta (clock : Clock) (delta : string) (s : Sending) : Sending :=
  let content := assistantContent s +:+ delta in
  mkSending
    (mkChatPage (with_content (assistantId clock) content
                   (shown (page_state s)))
       (isTyping (page_state s)))
    content.

(** The completion callback passed to [sendStreamMessage]. *)
Definition onComplete (clock : Clock) (s : Sending) : Sending :=
  let shown1 :=
    if String.eqb (assistantContent s) ""
    then with_content (assistantId clock) apology (shown (page_state s))
    else shown (page_state s) in
  mkSending (mkChatPage shown1 false) (assistantContent s).

(** One call made by [sendStreamMessage] on the callbacks it was given. *)
Inductive Signal : Type :=
| Delta (text : string)
| Complete.

Definition signal (clock : Clock) (sig : Signal) (s : Sending) : Sending :=
  match sig with
  | Delta text => onDelta clock text s
  | Complete => onComplete clock s
  end.

(** The callbacks called in the order [signals]. *)
Definition signals_run (clock : Clock) (signals : list Signal) (s : Sending)
  : Sending :=
  fold_left (fun acc sig => signal clock sig acc) signals s.

(** All of [texts], joined. *)
Definition joined (texts : list string) : string :=
  fold_right String.append "" texts.

End Chat.

(** ** The stream cut after its last newline *)

Module Pending.
Import JsString.

(** [s] up to and including its last newline; [''] when it has none. *)
Fixpoint upto_last_LF (s : string) : string :=
  match s with
  | "" => ""
  | String c s' => if newline_free s then "" else String c (upto_last_LF s')
  end.

(** The chunks up to the one that holds the last newline received, that
    one ending with this newline; no chunk when no newline was
    received. *)
Fixpoint cut_after_last_LF (values : list string) : list string :=
  match values with
  | [] => []
  | value :: rest =>
      if forallb newline_free rest
      then (if newline_free value then [] else [upto_last_LF value])
      else value :: cut_after_last_LF rest
  end.

End Pending.

(** ** The stream session controller *)

Module Controller.
Import Json Api.

(** Modelled from the spec: one call the controller makes on the callbacks
    its caller supplies, [onInit], [onDelta], [onComplete] and
    [onError]. *)
Inductive CallerCall : Type :=
| CallerInit (conversationId : JsValue)
| CallerDelta (text : string)
| CallerComplete
| CallerError (error : JsValue).

(** Modelled from the spec: the Stream Session Controller, the hook
    [useChatStream] that the chat page imports and whose source is
    missing.  It adapts the calls of [sendChatStreamMessage] into the
    callbacks of its caller: init and delta are passed on; a completion
    signal is passed on the first time and ignored afterwards; an error is
    passed on and then treated as a path that leads to completion.
    [completed] tells whether completion was passed on already. *)
Definition adapt (completed : bool) (c : Call) : bool * list CallerCall :=
  match c with
  | OnInit conversationId => (completed, [CallerInit conversationId])
  | OnDelta text => (completed, [CallerDelta text])
  | OnComplete => (true, if completed then [] else [CallerComplete])
  | OnError error =>
      (true, CallerError error :: if completed then [] else [CallerComplete])
  | ConsoleWarn _ | ConsoleError _ => (completed, [])
  end.

(** Modelled from the spec: the calls the controller makes on its caller
    for the calls [sendChatStreamMessage] makes on it, one request. *)
Fixpoint controller (completed : bool) (calls : list Call)
  : list CallerCall :=
  match calls with
  | [] => []
  | c :: rest =>
      let '(completed', out) := adapt completed c in
      out ++ controller completed' rest
  end.



End Controller.

(** * Facts about the string primitives *)

Module JsStringFacts.
Import JsString.

Lemma app_String c (x y : string) : String c x +:+ y = String c (x +:+ y).
Proof. reflexivity. Qed.

Lemma app_empty_l (y : string) : "" +:+ y = y.
Proof. reflexivity. Qed.

Lemma cons_head_nonempty c pieces : cons_head c pieces <> [].
Proof. destruct pieces; discriminate. Qed.

Lemma split_LF_nonempty s : split_LF s <> [].
Proof.
  destruct s as [|c s]; simpl; [discriminate|].
  destruct (Ascii.eqb c LF); [discriminate | apply cons_head_nonempty].
Qed.

Lemma removelast_cons_head c pieces :
  length pieces >= 2 ->
  List.removelast (cons_head c pieces) = cons_head c (List.removelast pieces).
Proof.
  destruct pieces as [|p [|q ps]]; simpl; intros H; try lia. reflexivity.
Qed.

Lemma cons_head_app c l1 l2 :
  l1 <> [] -> cons_head c (l1 ++ l2) = cons_head c l1 ++ l2.
Proof. destruct l1; [congruence | reflexivity]. Qed.

(** Splitting a concatenation: the complete lines of the first part stay,
    and its last piece is glued to the second part. *)
Lemma split_LF_app x y :
  split_LF (x +:+ y)
  = popped (split_LF x) ++ split_LF (pop (split_LF x) +:+ y).
Proof.
  unfold popped, pop.
  induction x as [|c x IH]; [reflexivity|].
  rewrite app_String. cbn [split_LF].
  destruct (Ascii.eqb c LF) eqn:Ec.
  - rewrite IH.
    pose proof (split_LF_nonempty x) as Hne.
    destruct (split_LF x) as [|p ps]; [congruence|]. reflexivity.
  - rewrite IH.
    pose proof (split_LF_nonempty x) as Hne.
    destruct (split_LF x) as [|p [|q ps]]; [congruence| |].
    + cbn [List.removelast List.last cons_head app]. rewrite app_String.
      cbn [split_LF]. rewrite Ec. reflexivity.
    + change (cons_head c (p :: q :: ps)) with (String c p :: q :: ps).
      change (List.last (String c p :: q :: ps) "") with (List.last (q :: ps) "").
      change (List.last (p :: q :: ps) "") with (List.last (q :: ps) "").
      change (List.removelast (String c p :: q :: ps))
        with (String c p :: List.removelast (q :: ps)).
      change (List.removelast (p :: q :: ps)) with (p :: List.removelast (q :: ps)).
      reflexivity.
Qed.

Lemma last_app_nonempty {A} (l1 l2 : list A) d :
  l2 <> [] -> List.last (l1 ++ l2) d = List.last l2 d.
Proof.
  intros Hne. induction l1 as [|a l1 IH]; [reflexivity|].
  simpl. rewrite IH. destruct (l1 ++ l2) eqn:E; [|reflexivity].
  apply app_eq_nil in E as [_ ->]. congruence.
Qed.

Lemma popped_split_LF_app x y :
  popped (split_LF (x +:+ y))
  = popped (split_LF x) ++ popped (split_LF (pop (split_LF x) +:+ y)).
Proof.
  rewrite split_LF_app. unfold popped at 1.
  apply removelast_app, split_LF_nonempty.
Qed.

Lemma pop_split_LF_app x y :
  pop (split_LF (x +:+ y)) = pop (split_LF (pop (split_LF x) +:+ y)).
Proof.
  rewrite split_LF_app. unfold pop at 1.
  apply last_app_nonempty, split_LF_nonempty.
Qed.

Lemma split_LF_newline_free s : newline_free s = true -> split_LF s = [s].
Proof.
  induction s as [|c s IH]; [reflexivity|]; simpl.
  intros [Hc Hs]%andb_prop. rewrite negb_true_iff in Hc.
  rewrite Hc, (IH Hs). reflexivity.
Qed.

(** The held-back piece never contains a newline. *)
Lemma pop_split_LF_newline_free s : newline_free (pop (split_LF s)) = true.
Proof.
  unfold pop. induction s as [|c s IH]; [reflexivity|]; simpl.
  pose proof (split_LF_nonempty s) as Hne.
  destruct (Ascii.eqb c LF) eqn:Ec.
  - destruct (split_LF s); [congruence | exact IH].
  - destruct (split_LF s) as [|p [|q ps]]; [congruence | | exact IH].
    simpl in *. rewrite Ec, IH. reflexivity.
Qed.

Lemma app_empty_r s : s +:+ "" = s.
Proof. induction s; rewrite ?app_String; [reflexivity | congruence]. Qed.

Lemma app_assoc (a b c : string) : (a +:+ b) +:+ c = a +:+ (b +:+ c).
Proof. induction a; rewrite ?app_String; [reflexivity | congruence]. Qed.

Lemma trimEnd_nonempty c s : is_space c = false -> trimEnd (String c s) <> "".
Proof.
  intros Hc. simpl. destruct (trimEnd s); [rewrite Hc|]; discriminate.
Qed.

(** A line that starts with ["data: "] does not trim to the empty string. *)
Lemma trim_data_line line : startsWith "data: " line = true -> trim line <> "".
Proof.
  destruct line as [|c line]; [discriminate|].
  cbn [startsWith]. intros [Hc _]%andb_prop.
  apply Ascii.eqb_eq in Hc as <-.
  unfold trim. cbn [trimStart]. change (is_space "d") with false.
  cbv iota. apply trimEnd_nonempty. reflexivity.
Qed.

Lemma newline_free_app a b :
  newline_free (a +:+ b) = (newline_free a && newline_free b)%bool.
Proof.
  induction a as [|c a IH]; [reflexivity|].
  rewrite app_String. cbn [newline_free]. rewrite IH.
  now rewrite andb_assoc.
Qed.

(** A newline-terminated line in front of a text is its first piece. *)
Lemma split_LF_ln s rest :
  newline_free s = true -> split_LF (ln s +:+ rest) = s :: split_LF rest.
Proof.
  unfold ln. induction s as [|c s IH]; [reflexivity|].
  cbn [newline_free]. intros [Hc Hs]%andb_prop.
  rewrite negb_true_iff in Hc.
  rewrite !app_String. cbn [split_LF]. rewrite Hc, (IH Hs). reflexivity.
Qed.

End JsStringFacts.

(** * Facts about the stream decoder *)

Module ApiFacts.
Import JsString Json Api JsStringFacts.

Lemma completions_app a b :
  completions (a ++ b) = completions a + completions b.
Proof. unfold completions. now rewrite List.filter_app, length_app. Qed.

Section Decoder.

Variable JSON_parse : string -> option JsValue.

Local Abbreviation on_data := (on_data JSON_parse).
Local Abbreviation process_line := (process_line JSON_parse).
Local Abbreviation for_lines := (for_lines JSON_parse).
Local Abbreviation on_chunk := (on_chunk JSON_parse).
Local Abbreviation read_loop := (read_loop JSON_parse).
Local Abbreviation try_block := (try_block JSON_parse).
Local Abbreviation sendChatStreamMessage := (sendChatStreamMessage JSON_parse).

(** *** The reset of [currentEvent] *)

(** The test [line.trim() === ''] sits inside the [data: ] branch, where it
    cannot succeed. *)
Lemma reset_never_taken ev line :
  startsWith "data: " line = true ->
  (if String.eqb (trim line) "" then "" else ev) = ev.
Proof.
  intros H. destruct (String.eqb (trim line) "") eqn:E; [|reflexivity].
  apply String.eqb_eq in E. now apply trim_data_line in H.
Qed.

(** Only an [event: ] line changes [currentEvent]. *)
Lemma process_line_keeps_event ev line :
  startsWith "event: " line = false -> fst (process_line ev line) = ev.
Proof.
  intros H. unfold Api.process_line. rewrite H.
  destruct (startsWith "data: " line) eqn:Hd; [|reflexivity].
  cbn [fst]. now apply reset_never_taken.
Qed.

(** *** The loop, chunk by chunk *)

Lemma read_loop_cons buffer value rest :
  read_loop buffer (value :: rest)
  = (fst (on_chunk buffer value)
       ++ fst (read_loop (snd (on_chunk buffer value)) rest),
     snd (read_loop (snd (on_chunk buffer value)) rest)).
Proof.
  cbn [Api.read_loop]. destruct (on_chunk buffer value) as [calls buffer'].
  cbn [fst snd]. now destruct (read_loop buffer' rest).
Qed.

Lemma read_loop_app buffer xs ys :
  read_loop buffer (xs ++ ys)
  = (fst (read_loop buffer xs)
       ++ fst (read_loop (snd (read_loop buffer xs)) ys),
     snd (read_loop (snd (read_loop buffer xs)) ys)).
Proof.
  revert buffer. induction xs as [|x xs IH]; intros buffer.
  - cbn [app Api.read_loop fst snd]. now destruct (read_loop buffer ys).
  - rewrite <- app_comm_cons, !read_loop_cons, IH. cbn [fst snd].
    now rewrite List.app_assoc.
Qed.

(** The held-back fragment never contains a newline. *)
Lemma on_chunk_buffer_newline_free buffer value :
  newline_free (snd (on_chunk buffer value)) = true.
Proof. apply pop_split_LF_newline_free. Qed.

(** Text without a newline at the end of a chunk only grows the
    held-back fragment. *)
Lemma on_chunk_tail buffer value tail :
  newline_free tail = true ->
  on_chunk buffer (value +:+ tail)
  = (fst (on_chunk buffer value), snd (on_chunk buffer value) +:+ tail).
Proof.
  intros Htail. unfold Api.on_chunk. cbn [fst snd].
  rewrite <- app_assoc, (popped_split_LF_app (buffer +:+ value) tail),
    (pop_split_LF_app (buffer +:+ value) tail).
  rewrite (split_LF_newline_free (pop (split_LF (buffer +:+ value)) +:+ tail)).
  - unfold popped at 2, pop at 1. cbn [List.removelast List.last].
    now rewrite List.app_nil_r.
  - rewrite newline_free_app, pop_split_LF_newline_free, Htail. reflexivity.
Qed.

(** The complete lines the loop sees are those of the text received,
    however it was cut into chunks. *)
Lemma lines_seen_received values : forall buffer,
  newline_free buffer = true ->
  lines_seen buffer values = popped (split_LF (buffer +:+ received values)).
Proof.
  induction values as [|value rest IH]; intros buffer Hb.
  - cbn [lines_seen received fold_right]. rewrite app_empty_r.
    now rewrite (split_LF_newline_free _ Hb).
  - cbn [lines_seen received fold_right].
    change (fold_right append "" rest) with (received rest).
    rewrite <- app_assoc, (popped_split_LF_app (buffer +:+ value)).
    now rewrite (IH _ (pop_split_LF_newline_free _)).
Qed.

(** The fragment held back when the loop ends is the text after the last
    newline received. *)
Lemma read_loop_buffer values : forall buffer,
  newline_free buffer = true ->
  snd (read_loop buffer values)
  = pop (split_LF (buffer +:+ received values)).
Proof.
  induction values as [|value rest IH]; intros buffer Hb.
  - cbn [Api.read_loop snd received fold_right]. rewrite app_empty_r.
    now rewrite (split_LF_newline_free _ Hb).
  - rewrite read_loop_cons. cbn [snd received fold_right].
    change (fold_right append "" rest) with (received rest).
    rewrite (IH _ (on_chunk_buffer_newline_free _ _)).
    rewrite <- app_assoc, (pop_split_LF_app (buffer +:+ value)).
    reflexivity.
Qed.

(** A stream that is read to its end. *)
Lemma sendChat_streaming values :
  sendChatStreamMessage (streaming values)
  = (fst (read_loop "" values) ++ [OnComplete], Fulfilled).
Proof. reflexivity. Qed.

(** *** Streams without a [complete] event *)

Lemma on_data_no_complete ev data :
  ev <> "complete" -> completions (on_data ev data) = 0.
Proof.
  intros Hev. unfold Api.on_data.
  destruct (String.eqb ev "init").
  { destruct (JSON_parse data) as [parsed|]; [|reflexivity].
    destruct (js_get parsed "conversationId") as [v|]; [|reflexivity].
    now destruct (truthy v). }
  destruct (String.eqb ev "complete") eqn:E.
  { now apply String.eqb_eq in E. }
  destruct (String.eqb ev "error"); [|reflexivity].
  destruct (JSON_parse data) as [parsed|]; [|reflexivity].
  now destruct (js_get parsed "error").
Qed.

Lemma process_line_no_complete ev line :
  ev <> "complete" -> names_complete line = false ->
  fst (process_line ev line) <> "complete"
  /\ completions (snd (process_line ev line)) = 0.
Proof.
  intros Hev Hline. unfold Api.process_line.
  unfold names_complete in Hline.
  destruct (startsWith "event: " line).
  - cbn [fst snd]. split; [|reflexivity].
    cbn [andb] in Hline. now apply String.eqb_neq in Hline.
  - destruct (startsWith "data: " line) eqn:Hd; cbn [fst snd].
    + rewrite (reset_never_taken _ _ Hd).
      split; [assumption | now apply on_data_no_complete].
    + split; [assumption | reflexivity].
Qed.

Lemma for_lines_no_complete lines : forall ev,
  ev <> "complete" ->
  Forall (fun line => names_complete line = false) lines ->
  completions (snd (for_lines ev lines)) = 0.
Proof.
  induction lines as [|line rest IH]; intros ev Hev Hall; [reflexivity|].
  apply Forall_cons_1 in Hall as [Hline Hrest].
  destruct (process_line_no_complete ev line Hev Hline) as [Hev' Hnone].
  cbn [Api.for_lines].
  destruct (process_line ev line) as [ev' calls]. cbn [fst snd] in *.
  specialize (IH ev' Hev' Hrest).
  destruct (for_lines ev' rest) as [final calls']. cbn [snd] in *.
  rewrite completions_app. lia.
Qed.

Lemma read_loop_no_complete values : forall buffer,
  Forall (fun line => names_complete line = false) (lines_seen buffer values) ->
  completions (fst (read_loop buffer values)) = 0.
Proof.
  induction values as [|value rest IH]; intros buffer Hall; [reflexivity|].
  cbn [lines_seen] in Hall. apply Forall_app in Hall as [Hnow Hlater].
  rewrite read_loop_cons. cbn [fst]. rewrite completions_app.
  rewrite (IH (snd (on_chunk buffer value)) Hlater).
  unfold Api.on_chunk. cbn [fst].
  rewrite for_lines_no_complete; [reflexivity | discriminate | assumption].
Qed.

(** *** A [complete] event that arrives whole *)

(** The chunk that carries one [complete] event with payload [payload]. *)
Lemma on_chunk_complete_event payload :
  newline_free payload = true ->
  on_chunk "" (ln "event: complete" +:+ ln ("data: " +:+ payload) +:+ ln "")
  = ([OnComplete], "").
Proof.
  intros Hp. unfold Api.on_chunk. rewrite app_empty_l.
  rewrite (split_LF_ln "event: complete") by reflexivity.
  rewrite (split_LF_ln ("data: " +:+ payload))
    by (rewrite newline_free_app; exact Hp).
  change (split_LF (ln "")) with ["" ; ""].
  unfold popped, pop. cbn [List.removelast List.last].
  cbn [Api.for_lines].
  change (process_line "" "event: complete") with ("complete", @nil Call).
  cbv beta iota.
  assert (Hdata : process_line "complete" ("data: " +:+ payload)
                  = ("complete", [OnComplete])).
  { unfold Api.process_line.
    change (startsWith "event: " ("data: " +:+ payload)) with false.
    change (startsWith "data: " ("data: " +:+ payload)) with true.
    cbv iota. now rewrite reset_never_taken. }
  rewrite Hdata. reflexivity.
Qed.

(** *** Chunk boundaries and the current event *)

(** C1 (chunking transparency), evaluated on the code: the same text
    [event: complete / data: done], received as two chunks cut at the line
    boundary or as one chunk, gives different calls.  [currentEvent] is
    declared inside [while (true)], so it starts again at [''] with every
    chunk: cut in two, the payload is passed to [onDelta]; in one piece it
    fires [onComplete]. *)
Theorem chunking_changes_events :
  received [ln "event: complete"; ln "data: done"]
  = received [ln "event: complete" +:+ ln "data: done"]
  /\ sendChatStreamMessage
       (streaming [ln "event: complete"; ln "data: done"])
     = ([OnDelta "done"; OnComplete], Fulfilled)
  /\ sendChatStreamMessage
       (streaming [ln "event: complete" +:+ ln "data: done"])
     = ([OnComplete; OnComplete], Fulfilled).
Proof. repeat split; reflexivity. Qed.

(** C5 (empty line resets the event), evaluated on the code: an empty line
    leaves [currentEvent] as it is, for every event name; and in the chunk
    [event: complete / data: done / (empty) / data: hello] the payload
    [hello] fires [onComplete] again instead of reaching [onDelta]. *)
Theorem empty_line_keeps_event :
  (forall ev, process_line ev "" = (ev, []))
  /\ sendChatStreamMessage
       (streaming [ln "event: complete" +:+ ln "data: done" +:+ ln ""
                   +:+ ln "data: hello"])
     = ([OnComplete; OnComplete; OnComplete], Fulfilled).
Proof. split; [intros ev|]; reflexivity. Qed.

(** *** Completion *)

(** When the text received so far ends at a line boundary and a
    [complete] event then arrives whole in the last chunk,
    [sendChatStreamMessage] calls [onComplete] for that event and once
    more at the end of the stream: two calls on top of those made
    before. *)
Lemma complete_event_then_end_fires_twice values payload :
  pop (split_LF (received values)) = "" ->
  newline_free payload = true ->
  completions
    (fst (sendChatStreamMessage
            (streaming
               (values ++ [ln "event: complete"
                           +:+ ln ("data: " +:+ payload) +:+ ln ""]))))
  = completions (fst (read_loop "" values)) + 2.
Proof.
  intros Hboundary Hpayload.
  assert (Hbuffer : snd (read_loop "" values) = "").
  { now rewrite read_loop_buffer by reflexivity. }
  rewrite sendChat_streaming. cbn [fst].
  rewrite read_loop_app, Hbuffer. cbn [fst].
  rewrite read_loop_cons, (on_chunk_complete_event _ Hpayload).
  cbn [fst snd Api.read_loop]. rewrite !completions_app.
  change (completions [OnComplete]) with 1.
  change (completions []) with 0. lia.
Qed.

(** C8: when no complete line of the text received is an [event: ] line
    naming [complete], a stream read to its end calls [onComplete] exactly
    once, as its last call, and the promise is fulfilled. *)
Theorem end_of_stream_completes_once values :
  Forall (fun line => names_complete line = false)
    (popped (split_LF (received values))) ->
  completions (fst (sendChatStreamMessage (streaming values))) = 1
  /\ exists calls,
       sendChatStreamMessage (streaming values)
       = (calls ++ [OnComplete], Fulfilled)
       /\ completions calls = 0.
Proof.
  intros Hall.
  assert (Hloop : completions (fst (read_loop "" values)) = 0).
  { apply read_loop_no_complete.
    now rewrite lines_seen_received by reflexivity. }
  rewrite sendChat_streaming. cbn [fst]. split.
  - rewrite completions_app, Hloop. reflexivity.
  - now exists (fst (read_loop "" values)).
Qed.

(** Text without a newline at the end of the last chunk only extends
    [buffer] and changes none of the calls made, whatever the status of
    the response and however reading ends. *)
Lemma last_chunk_tail_ignored
    values value tail is_ok code parsed how :
  newline_free tail = true ->
  snd (read_loop "" (values ++ [value +:+ tail]))
  = pop (split_LF (received (values ++ [value +:+ tail])))
  /\ snd (read_loop "" (values ++ [value +:+ tail]))
     = snd (read_loop "" (values ++ [value])) +:+ tail
  /\ sendChatStreamMessage
       (FetchResolved
          (mkResponse is_ok code parsed
             (Some (mkBody (values ++ [value +:+ tail]) how))))
     = sendChatStreamMessage
         (FetchResolved
            (mkResponse is_ok code parsed
               (Some (mkBody (values ++ [value]) how)))).
Proof.
  intros Htail.
  assert (Hloop : read_loop "" (values ++ [value +:+ tail])
                  = (fst (read_loop "" (values ++ [value])),
                     snd (read_loop "" (values ++ [value])) +:+ tail)).
  { rewrite !read_loop_app, !read_loop_cons, (on_chunk_tail _ _ _ Htail).
    reflexivity. }
  split; [now rewrite read_loop_buffer by reflexivity|].
  split; [now rewrite Hloop|].
  unfold Api.sendChatStreamMessage, Api.try_block.
  destruct is_ok.
  - cbn. now rewrite Hloop.
  - unfold http_error. cbn [bind ret ok json status].
    now destruct (js_get _ "error").
Qed.

(** *** The [try] block, case by case *)

Lemma http_error_throws response :
  exists message, http_error response = ([], Throw message).
Proof.
  unfold http_error. destruct (js_get _ "error"); eexists; reflexivity.
Qed.

Lemma try_block_not_ok response :
  ok response = false ->
  exists message, try_block (FetchResolved response) = ([], Throw message).
Proof.
  intros Hok. destruct (http_error_throws response) as [message Hthrow].
  exists message. unfold Api.try_block. cbn [bind ret].
  now rewrite Hok, Hthrow.
Qed.

Lemma try_block_no_body response :
  ok response = true -> body response = None ->
  try_block (FetchResolved response) = ([], Throw "No response body").
Proof.
  intros Hok Hbody. unfold Api.try_block. cbn [bind ret].
  now rewrite Hok, Hbody.
Qed.

Lemma try_block_body response stream :
  ok response = true -> body response = Some stream ->
  try_block (FetchResolved response)
  = match ending stream with
    | Done => (fst (read_loop "" (chunks stream)) ++ [OnComplete], Normal tt)
    | ReadRejected message =>
        (fst (read_loop "" (chunks stream)), Throw message)
    end.
Proof.
  intros Hok Hbody. unfold Api.try_block. cbn [bind ret].
  rewrite Hok, Hbody. cbn [bind ret emit app].
  destruct (ending stream); cbn [bind emit throw]; [reflexivity|].
  now rewrite List.app_nil_r.
Qed.



End Decoder.

(** *** Concrete streams *)

(** The three-frame exchange [init], [Hel], [lo], [!], [complete], one
    frame per chunk. *)
Example hello_frame_by_frame :
  sendChatStreamMessage JSON_parse_flat
    (streaming
       [ln "event: init"
        +:+ ln ("data: {" +:+ quoted "conversationId" +:+ ":"
                +:+ quoted "abc" +:+ "}") +:+ ln "";
        ln "data: Hel" +:+ ln "";
        ln "data: lo" +:+ ln "";
        ln "data: !" +:+ ln "";
        ln "event: complete" +:+ ln "data:" +:+ ln ""])
  = ([OnInit (JsString "abc"); OnDelta "Hel"; OnDelta "lo"; OnDelta "!";
      OnComplete], Fulfilled).
Proof. reflexivity. Qed.

(** The same exchange in one chunk: the event stays [init], so the text
    payloads are parsed as JSON and dropped with a warning. *)
Example hello_in_one_chunk :
  sendChatStreamMessage JSON_parse_flat
    (streaming
       [ln "event: init"
        +:+ ln ("data: {" +:+ quoted "conversationId" +:+ ":"
                +:+ quoted "abc" +:+ "}") +:+ ln ""
        +:+ ln "data: Hel" +:+ ln ""
        +:+ ln "data: lo" +:+ ln ""
        +:+ ln "data: !" +:+ ln ""
        +:+ ln "event: complete" +:+ ln "data:" +:+ ln ""])
  = ([OnInit (JsString "abc"); ConsoleWarn "Hel"; ConsoleWarn "lo";
      ConsoleWarn "!"; OnComplete], Fulfilled).
Proof. reflexivity. Qed.

(** An [error] event: the [error] member when the payload parses, the
    payload itself when it does not; the stream goes on to its end. *)
Example error_event :
  sendChatStreamMessage JSON_parse_flat
    (streaming
       [ln "event: error"
        +:+ ln ("data: {" +:+ quoted "error" +:+ ":" +:+ quoted "boom" +:+ "}")
        +:+ ln "data: not json"])
  = ([OnError (JsString "boom"); OnError (JsString "not json"); OnComplete],
     Fulfilled).
Proof. reflexivity. Qed.

(** A response that is not [ok]: the [error] member of the body, or the
    status. *)
Example http_failure :
  sendChatStreamMessage JSON_parse_flat
    (FetchResolved
       (mkResponse false 503
          (Some (JsObject [("error", JsString "Service unavailable")]))
          None))
  = ([ConsoleError "Service unavailable";
      OnError (JsString "Service unavailable")], Fulfilled)
  /\ sendChatStreamMessage JSON_parse_flat
       (FetchResolved (mkResponse false 503 (Some (JsObject [])) None))
     = ([ConsoleError "HTTP error: 503";
         OnError (JsString "HTTP error: 503")], Fulfilled).
Proof. split; reflexivity. Qed.

(** Reading the body rejects after a first chunk. *)
Example read_failure :
  sendChatStreamMessage JSON_parse_flat
    (FetchResolved
       (mkResponse true 200 None
          (Some (mkBody [ln "data: Hel"] (ReadRejected "network error")))))
  = ([OnDelta "Hel"; ConsoleError "network error";
      OnError (JsString "network error")], Fulfilled).
Proof. reflexivity. Qed.

(** The two-character escapes of a payload become the characters. *)
Example unescape_newline :
  unescape ("a" +:+ String BACKSLASH "nb" +:+ String BACKSLASH "rc")
  = "a" +:+ String LF "b" +:+ String CR "c".
Proof. reflexivity. Qed.

Lemma complete_event_then_end_fires_twice_witness :
  pop (split_LF (received [ln "data: Hello"])) = ""
  /\ newline_free "{}" = true
  /\ completions
       (fst (sendChatStreamMessage JSON_parse_flat
               (streaming
                  ([ln "data: Hello"]
                   ++ [ln "event: complete" +:+ ln ("data: " +:+ "{}")
                       +:+ ln ""]))))
     = completions (fst (read_loop JSON_parse_flat "" [ln "data: Hello"])) + 2.
Proof.
  split; [reflexivity|]. split; [reflexivity|].
  apply (complete_event_then_end_fires_twice JSON_parse_flat
           [ln "data: Hello"] "{}"); reflexivity.
Defined.

(** For a stream that carries one [complete] event and then ends,
    [sendChatStreamMessage] calls [onComplete] twice. *)
Lemma completion_not_once :
  let calls :=
    fst (sendChatStreamMessage JSON_parse_flat
           (streaming [ln "event: complete" +:+ ln "data: {}" +:+ ln ""])) in
  calls = [OnComplete; OnComplete] /\ completions calls <> 1.
Proof. split; [reflexivity | discriminate]. Qed.



Lemma end_of_stream_completes_once_witness :
  Forall (fun line => names_complete line = false)
    (popped (split_LF (received [ln "data: Hel"; "data: l"; ln "o"])))
  /\ completions
       (fst (sendChatStreamMessage JSON_parse_flat
               (streaming [ln "data: Hel"; "data: l"; ln "o"]))) = 1.
Proof.
  assert (H : Forall (fun line => names_complete line = false)
                (popped (split_LF (received [ln "data: Hel"; "data: l";
                                             ln "o"])))).
  { repeat constructor. }
  split; [exact H|].
  apply (end_of_stream_completes_once JSON_parse_flat
           [ln "data: Hel"; "data: l"; ln "o"] H).
Defined.

Lemma last_chunk_tail_ignored_example :
  newline_free "data: lo" = true
  /\ snd (read_loop JSON_parse_flat ""
            ([] ++ [ln "data: Hel" +:+ "data: lo"]))
     = "data: lo"
  /\ sendChatStreamMessage JSON_parse_flat
       (FetchResolved
          (mkResponse true 200 None
             (Some (mkBody ([] ++ [ln "data: Hel" +:+ "data: lo"]) Done))))
     = ([OnDelta "Hel"; OnComplete], Fulfilled).
Proof.
  split; [reflexivity|].
  destruct (last_chunk_tail_ignored JSON_parse_flat
              [] (ln "data: Hel") "data: lo" true 200 None Done eq_refl)
    as (Hlast & Hbuffer & Hcalls).
  split; [rewrite Hbuffer; reflexivity|]. rewrite Hcalls. reflexivity.
Defined.

End ApiFacts.

(** * Facts about the history hook *)

Module HistoryFacts.
Import Api History.

(** *** Sorted lists *)

Section Sorted.
Context {A : Type} (R : A -> A -> Prop).

Lemma StronglySorted_map_filter {B} (g : B -> A) (keep : B -> bool) l :
  StronglySorted R (map g l) -> StronglySorted R (map g (List.filter keep l)).
Proof.
  induction l as [|b l IH]; cbn [map List.filter]; intros H; [constructor|].
  apply StronglySorted_inv in H as [Hl Hb].
  destruct (keep b); [|auto]. cbn [map]. constructor; [auto|].
  rewrite List.Forall_forall in *.
  intros x (b' & <- & [Hin _]%List.filter_In)%List.in_map_iff.
  apply Hb, List.in_map, Hin.
Qed.

Lemma StronglySorted_append l1 l2 :
  StronglySorted R l1 -> StronglySorted R l2 ->
  (forall x y, In x l1 -> In y l2 -> R x y) ->
  StronglySorted R (l1 ++ l2).
Proof.
  induction 1 as [|a l Hl IH Ha]; intros H2 Hcross; [assumption|].
  cbn [app]. constructor.
  - apply IH; [assumption|]. intros x y Hx Hy. apply Hcross; [now right|easy].
  - apply List.Forall_app. split; [assumption|].
    rewrite List.Forall_forall. intros y Hy. apply Hcross; [now left|easy].
Qed.

End Sorted.

(** *** The loaded-id set *)

Lemma elem_of_add_ids msgs : forall (s : gset string) x,
  x ∈ add_ids msgs s <-> x ∈ s \/ In x (map id msgs).
Proof.
  unfold add_ids. induction msgs as [|m msgs IH]; intros s x; cbn.
  - tauto.
  - rewrite IH, elem_of_union, elem_of_singleton. intuition auto.
Qed.

Lemma has_true (s : gset string) x : has s x = true <-> x ∈ s.
Proof. unfold has. apply bool_decide_eq_true. Qed.

Lemma has_false (s : gset string) x : has s x = false <-> x ∉ s.
Proof. unfold has. apply bool_decide_eq_false. Qed.

(** *** The messages taken from a page *)

Lemma newMessages_ids loaded dtos :
  map id (newMessages loaded dtos)
  = List.filter (fun x => negb (has loaded x)) (page_ids dtos).
Proof.
  unfold newMessages, page_ids.
  induction dtos as [|dto dtos IH]; [reflexivity|]. cbn [List.filter map].
  destruct (has loaded (toString (dto_id dto))); cbn [negb map];
    now rewrite IH.
Qed.

Lemma newMessages_timestamps loaded dtos :
  map timestamp (newMessages loaded dtos)
  = map createdAt
      (List.filter (fun dto => negb (has loaded (toString (dto_id dto)))) dtos).
Proof. unfold newMessages. now rewrite List.map_map. Qed.

Lemma newMessages_not_loaded loaded dtos m :
  In m (newMessages loaded dtos) -> id m ∉ loaded.
Proof.
  unfold newMessages. rewrite List.in_map_iff.
  intros (dto & <- & [_ Hnew]%List.filter_In).
  apply has_false. now apply negb_true_iff.
Qed.

Lemma newMessages_from_page loaded dtos m :
  In m (newMessages loaded dtos) ->
  exists dto, In dto dtos /\ m = convertToMessage dto.
Proof.
  unfold newMessages. rewrite List.in_map_iff.
  intros (dto & <- & [Hin _]%List.filter_In). now exists dto.
Qed.

Lemma newMessages_length loaded dtos :
  length (newMessages loaded dtos) + overlapCount loaded dtos = length dtos.
Proof.
  unfold newMessages, overlapCount. rewrite length_map.
  induction dtos as [|dto dtos IH]; [reflexivity|]. cbn [List.filter].
  destruct (has loaded (toString (dto_id dto))); cbn [negb length]; lia.
Qed.

(** *** What a call does, when nothing else touches the hook *)

Lemma falsy_Some convId : convId <> "" -> falsy (Some convId) = false.
Proof. intros H. now apply String.eqb_neq. Qed.

Lemma loadInitialMessages_resolved initialPageSize convId response h :
  convId <> "" ->
  loadInitialMessages initialPageSize convId (fun _ => Resolves response) h
  = (mkHook (map convertToMessage (page_messages response)) (Some convId)
       (hasMore response) false (isLoadingMore h) 0
       (add_ids (map convertToMessage (page_messages response)) ∅),
     Fulfilled).
Proof.
  intros Hconv. unfold loadInitialMessages, loadInitialMessages_start.
  now rewrite (falsy_Some _ Hconv).
Qed.

Lemma loadMoreMessages_resolved f response h :
  guard f = false ->
  loadMoreMessages f (fun _ => Resolves response) h
  = (mkHook (newMessages (loadedMessageIds h) (page_messages response)
             ++ messages h)
       (conversationId h) (hasMore response) (isLoadingHistory h) false
       (seen_currentPage f + 1)
       (add_ids (newMessages (loadedMessageIds h) (page_messages response))
          (loadedMessageIds h)),
     Fulfilled).
Proof.
  intros Hguard. unfold loadMoreMessages, loadMoreMessages_start.
  now rewrite Hguard.
Qed.

(** The early return: no request, no change. *)
Lemma loadMoreMessages_guarded f backend h :
  guard f = true ->
  loadMoreMessages_start f h = (h, None)
  /\ loadMoreMessages f backend h = (h, Fulfilled).
Proof.
  intros Hguard. unfold loadMoreMessages, loadMoreMessages_start.
  now rewrite Hguard.
Qed.

(** A closure made after [isLoadingMore] became [true] returns early. *)
Lemma render_while_loading pageSize h :
  isLoadingMore h = true -> guard (render pageSize h) = true.
Proof.
  intros H. unfold guard, render. cbn. rewrite H. apply orb_true_r.
Qed.

(** *** Order of the list *)

(** C4, as amended: a load that succeeds keeps the order of the page as
    it came.  After [loadInitialMessages] the list is the page, converted;
    after [loadMoreMessages] it is the messages of the page that were not
    loaded, converted, followed by the previous list.  So the list is
    oldest first when the page comes oldest first and, for
    [loadMoreMessages], the previous list is oldest first and starts no
    earlier than the page ends. *)
Theorem loads_keep_page_order :
  (forall initialPageSize convId response h,
     convId <> "" ->
     let h' := fst (loadInitialMessages initialPageSize convId
                      (fun _ => Resolves response) h) in
     messages h' = map convertToMessage (page_messages response)
     /\ (StronglySorted Z.le (map createdAt (page_messages response)) ->
         chronological (messages h')))
  /\ (forall f response h,
       guard f = false ->
       let h' := fst (loadMoreMessages f (fun _ => Resolves response) h) in
       messages h'
       = newMessages (loadedMessageIds h) (page_messages response)
         ++ messages h
       /\ (StronglySorted Z.le (map createdAt (page_messages response)) ->
           chronological (messages h) ->
           (forall dto m, In dto (page_messages response) ->
                          In m (messages h) ->
                          (createdAt dto <= timestamp m)%Z) ->
           chronological (messages h'))).
Proof.
  split.
  - intros initialPageSize convId response h Hconv h'. subst h'.
    rewrite (loadInitialMessages_resolved _ _ _ _ Hconv). cbn [fst messages].
    split; [reflexivity|]. unfold chronological.
    now rewrite List.map_map.
  - intros f response h Hguard h'. subst h'.
    rewrite (loadMoreMessages_resolved _ _ _ Hguard). cbn [fst messages].
    split; [reflexivity|]. unfold chronological.
    intros Hpage Hold Hcross. rewrite List.map_app.
    apply StronglySorted_append; [|assumption|].
    + rewrite newMessages_timestamps.
      now apply StronglySorted_map_filter.
    + intros x y (new & <- & Hnew)%List.in_map_iff
        (m & <- & Hm)%List.in_map_iff.
      destruct (newMessages_from_page _ _ _ Hnew) as (dto & Hdto & ->).
      now apply Hcross.
Qed.

(** *** Merging a page *)

(** C6, as amended: [loadMoreMessages] puts in front of the list only
    messages of the page whose id is not in the loaded-id set, so the new
    length is the old length plus the size of the page minus the number
    of its messages that were loaded already.  When the ids of the page
    are pairwise distinct, and the ids of the list were pairwise distinct
    and all in the loaded-id set, the same holds afterwards. *)
Theorem loadMore_merge f response h :
  guard f = false ->
  let dtos := page_messages response in
  let h' := fst (loadMoreMessages f (fun _ => Resolves response) h) in
  (exists new,
     messages h' = new ++ messages h
     /\ (forall m, In m new -> id m ∉ loadedMessageIds h)
     /\ (forall m, In m new ->
                   exists dto, In dto dtos /\ m = convertToMessage dto))
  /\ length (messages h')
     = length (messages h)
       + (length dtos - overlapCount (loadedMessageIds h) dtos)
  /\ (List.NoDup (page_ids dtos) ->
      List.NoDup (map id (messages h)) ->
      (forall m, In m (messages h) -> id m ∈ loadedMessageIds h) ->
      List.NoDup (map id (messages h'))
      /\ (forall m, In m (messages h') -> id m ∈ loadedMessageIds h')).
Proof.
  intros Hguard dtos h'. subst h'.
  rewrite (loadMoreMessages_resolved _ _ _ Hguard).
  cbn [fst messages loadedMessageIds]. fold dtos.
  split; [|split].
  - exists (newMessages (loadedMessageIds h) dtos).
    split; [reflexivity|]. split.
    + apply newMessages_not_loaded.
    + apply newMessages_from_page.
  - rewrite length_app.
    pose proof (newMessages_length (loadedMessageIds h) dtos). lia.
  - intros Hpage Hlist Hloaded. split.
    + rewrite List.map_app. apply List.NoDup_app.
      * rewrite newMessages_ids. now apply List.NoDup_filter.
      * assumption.
      * intros x (new & <- & Hnew)%List.in_map_iff
          (m & Heq & Hm)%List.in_map_iff.
        apply (newMessages_not_loaded _ _ _ Hnew).
        rewrite <- Heq. now apply Hloaded.
    + intros m [Hnew | Hold]%List.in_app_iff; apply elem_of_add_ids.
      * right. now apply List.in_map.
      * left. now apply Hloaded.
Qed.

(** *** Calls that overlap *)

(** C7 (one outstanding fetch), evaluated on the code: with a conversation
    and more pages to load, two calls of the same [loadMoreMessages]
    closure, the second before the first has settled, both send the
    request for page 1.  The closure reads [isLoadingMore] as it was at
    the render that made it, so the first call's [setIsLoadingMore(true)]
    does not reach the second; only a closure made by a later render
    returns early. *)
Theorem same_closure_fetches_twice :
  let h0 := mkHook [] (Some "c1") true false false 0 ∅ in
  let f := render 20 h0 in
  let first := loadMoreMessages_start f h0 in
  let second := loadMoreMessages_start f (fst first) in
  isLoadingMore (fst first) = true
  /\ snd first = Some (GetMessagesForConversation "c1" 1 20)
  /\ snd second = Some (GetMessagesForConversation "c1" 1 20)
  /\ snd (loadMoreMessages_start (render 20 (fst first)) (fst first)) = None.
Proof. repeat split; reflexivity. Qed.

(** *** A page request that rejects *)

(** C10: when the request for the next page rejects, the call ends with
    its promise fulfilled; the list, the loaded-id set, the page cursor,
    [hasMoreMessages] and the conversation are as before the call, and
    [isLoadingMore] is [false]. *)
Theorem loadMore_rejected_keeps_state f backend h message :
  guard f = false ->
  backend (GetMessagesForConversation (default "" (seen_conversationId f))
             (seen_currentPage f + 1) (pageSize f)) = Rejects message ->
  let h' := fst (loadMoreMessages f backend h) in
  snd (loadMoreMessages f backend h) = Fulfilled
  /\ messages h' = messages h
  /\ loadedMessageIds h' = loadedMessageIds h
  /\ currentPage h' = currentPage h
  /\ hasMoreMessages h' = hasMoreMessages h
  /\ conversationId h' = conversationId h
  /\ isLoadingMore h' = false.
Proof.
  intros Hguard Hbackend h'. subst h'.
  unfold loadMoreMessages, loadMoreMessages_start. rewrite Hguard.
  rewrite Hbackend. cbn. repeat split; reflexivity.
Qed.

(** *** Concrete pages *)

Lemma loads_keep_page_order_witness :
  let response := page_of [sample 100 1000; sample 101 2000] in
  let older := page_of [sample 98 800; sample 99 900; sample 100 1000] in
  let h := fst (loadInitialMessages 15 "c1" (fun _ => Resolves response)
                  initial) in
  let h' := fst (loadMoreMessages (render 20 ready)
                   (fun _ => Resolves older) h) in
  "c1" <> ""
  /\ map id (messages h) = ["100"; "101"]
  /\ chronological (messages h)
  /\ guard (render 20 ready) = false
  /\ map id (messages h') = ["98"; "99"; "100"; "101"]
  /\ chronological (messages h').
Proof.
  intros response older h h'.
  destruct loads_keep_page_order as [Hinitial Hmore].
  assert (Hconv : "c1" <> "") by discriminate.
  destruct (Hinitial 15%Z "c1" response initial Hconv) as [Hlist Hsorted].
  assert (Hh : chronological (messages h)).
  { apply Hsorted. simpl. repeat constructor; lia. }
  destruct (Hmore (render 20%Z ready) older h eq_refl) as [Hlist' Hsorted'].
  assert (Hh' : chronological (messages h')).
  { apply Hsorted'; [simpl; repeat constructor; lia | exact Hh |].
    intros d m Hd Hm. unfold h in Hm. rewrite Hlist in Hm.
    cbn in Hd, Hm.
    destruct Hd as [<-|[<-|[<-|[]]]]; destruct Hm as [<-|[<-|[]]];
      cbn; lia. }
  split; [exact Hconv|]. split.
  { unfold h. rewrite Hlist. reflexivity. }
  split; [exact Hh|]. split; [reflexivity|]. split; [|exact Hh'].
  unfold h'. rewrite Hlist'. unfold h. rewrite Hlist.
  vm_compute. reflexivity.
Defined.

(** C4, as stated, fails: a first page that comes newest first is stored
    newest first. *)
Lemma newest_first_page_stays_newest_first :
  let response := page_of [sample 101 2000; sample 100 1000] in
  let h := fst (loadInitialMessages 15 "c1" (fun _ => Resolves response)
                  initial) in
  newest_first (page_messages response)
  /\ map timestamp (messages h) = [2000; 1000]%Z
  /\ ~ chronological (messages h).
Proof.
  intros response h.
  assert (Hlist : map timestamp (messages h) = [2000; 1000]%Z)
    by reflexivity.
  split; [unfold newest_first; simpl; repeat constructor; lia|].
  split; [exact Hlist|].
  unfold chronological. rewrite Hlist. intros Hsorted.
  apply StronglySorted_inv in Hsorted as [_ Hfirst].
  apply Forall_inv in Hfirst. lia.
Qed.

Lemma loadMore_merge_witness :
  let h := showing_100 in
  let response := page_of [sample 98 800; sample 99 900; sample 100 1000] in
  let h' := fst (loadMoreMessages (render 20 h) (fun _ => Resolves response)
                   h) in
  guard (render 20 h) = false
  /\ overlapCount (loadedMessageIds h) (page_messages response) = 1
  /\ length (messages h') = 1 + (3 - 1)
  /\ List.NoDup (map id (messages h')).
Proof.
  intros h response h'.
  destruct (loadMore_merge (render 20%Z h) response h eq_refl)
    as (_ & Hlength & Hdistinct).
  split; [reflexivity|]. split; [vm_compute; reflexivity|].
  split; [exact Hlength|].
  apply Hdistinct.
  - vm_compute. repeat constructor; cbn; intuition discriminate.
  - repeat constructor. cbn. tauto.
  - intros m [<-|[]]. vm_compute. reflexivity.
Defined.

(** C6, as stated, fails.  A page that holds the same id twice puts both
    messages on the list.  And after a [loadInitialMessages] whose request
    rejects, the list is kept while the loaded-id set is empty, so a page
    that overlaps the list puts message 100 on it a second time. *)
Lemma page_with_repeated_id :
  let twice := page_of [sample 7 1000; sample 7 1000] in
  let h1 := fst (loadMoreMessages (render 20 ready)
                   (fun _ => Resolves twice) ready) in
  let failed := fst (loadInitialMessages 15 "c1"
                       (fun _ => Rejects "Failed to fetch initial messages")
                       showing_100) in
  let overlap := page_of [sample 99 900; sample 100 1000] in
  let h2 := fst (loadMoreMessages (render 20 failed)
                   (fun _ => Resolves overlap) failed) in
  map id (messages h1) = ["7"; "7"]
  /\ ~ List.NoDup (map id (messages h1))
  /\ map id (messages failed) = ["100"]
  /\ loadedMessageIds failed = ∅
  /\ map id (messages h2) = ["99"; "100"; "100"]
  /\ ~ List.NoDup (map id (messages h2)).
Proof.
  intros twice h1 failed overlap h2.
  assert (Hids1 : map id (messages h1) = ["7"; "7"])
    by (vm_compute; reflexivity).
  assert (Hids2 : map id (messages h2) = ["99"; "100"; "100"])
    by (vm_compute; reflexivity).
  split; [exact Hids1|]. split.
  { rewrite Hids1. intros Hdistinct.
    apply List.NoDup_cons_iff in Hdistinct as [Hfresh _].
    apply Hfresh. now left. }
  split; [vm_compute; reflexivity|]. split; [reflexivity|].
  split; [exact Hids2|].
  rewrite Hids2. intros Hdistinct.
  apply List.NoDup_cons_iff in Hdistinct as [_ Hrest].
  apply List.NoDup_cons_iff in Hrest as [Hfresh _].
  apply Hfresh. now left.
Qed.

Lemma loadMore_rejected_keeps_state_witness :
  let h := showing_100 in
  let backend := fun _ : Request => Rejects "Failed to fetch messages" in
  let h' := fst (loadMoreMessages (render 20 h) backend h) in
  guard (render 20 h) = false
  /\ snd (loadMoreMessages (render 20 h) backend h) = Fulfilled
  /\ messages h' = messages h
  /\ loadedMessageIds h' = loadedMessageIds h
  /\ currentPage h' = currentPage h
  /\ hasMoreMessages h' = hasMoreMessages h
  /\ conversationId h' = conversationId h
  /\ isLoadingMore h' = false.
Proof.
  intros h backend h'. split; [reflexivity|].
  apply (loadMore_rejected_keeps_state (render 20%Z h) backend h
           "Failed to fetch messages"); reflexivity.
Defined.

End HistoryFacts.

(** * Facts about escapes in a payload *)

Module EscapeFacts.
Import JsString Escapes JsStringFacts.

(** Induction that follows [replace_escape]: two characters at a time. *)
Lemma string_pairs_ind (P : string -> Prop) :
  P "" ->
  (forall a, P (String a "")) ->
  (forall a b s, P s -> P (String b s) -> P (String a (String b s))) ->
  forall s, P s.
Proof.
  intros Hnil Hone Hstep s.
  assert (H : P s /\ forall a, P (String a s)).
  { induction s as [|b s [IHs IHbs]]; [split; [exact Hnil | exact Hone]|].
    split; [apply IHbs|]. intros a. apply Hstep; [exact IHs | apply IHbs]. }
  apply H.
Qed.

Lemma replace_escape_step x r a b s :
  replace_escape x r (String a (String b s))
  = if (Ascii.eqb a BACKSLASH && Ascii.eqb b x)%bool
    then String r (replace_escape x r s)
    else String a (replace_escape x r (String b s)).
Proof. reflexivity. Qed.

(** The first character written for a non-empty text is the replacement or
    the first character read. *)
Lemma replace_escape_head x r b s :
  exists t, replace_escape x r (String b s) = String r t
            \/ replace_escape x r (String b s) = String b t.
Proof.
  destruct s as [|c s]; [exists ""; now right|].
  rewrite replace_escape_step.
  destruct (Ascii.eqb b BACKSLASH && Ascii.eqb c x)%bool; eexists; eauto.
Qed.

Lemma has_pair_step a b c d s :
  has_pair a b (String c (String d s))
  = ((Ascii.eqb c a && Ascii.eqb d b) || has_pair a b (String d s))%bool.
Proof. reflexivity. Qed.

(** After the replacement no backslash is followed by [x]. *)
Lemma replace_escape_removes x r :
  Ascii.eqb r BACKSLASH = false -> Ascii.eqb r x = false ->
  forall s, has_pair BACKSLASH x (replace_escape x r s) = false.
Proof.
  intros Hr Hrx. apply string_pairs_ind; [reflexivity | reflexivity|].
  intros a b s IHs IHbs. rewrite replace_escape_step.
  destruct (Ascii.eqb a BACKSLASH && Ascii.eqb b x)%bool eqn:Hmatch.
  - destruct (replace_escape x r s) as [|d t] eqn:E; [reflexivity|].
    rewrite has_pair_step, Hr, IHs. reflexivity.
  - destruct (replace_escape_head x r b s) as [t [E|E]];
      rewrite E in *; rewrite has_pair_step, IHbs, orb_false_r.
    + rewrite Hrx. apply andb_false_r.
    + exact Hmatch.
Qed.

(** The replacement does not bring a backslash next to [y]. *)
Lemma replace_escape_keeps_free x r y :
  Ascii.eqb r BACKSLASH = false -> Ascii.eqb r y = false ->
  forall s, has_pair BACKSLASH y s = false ->
            has_pair BACKSLASH y (replace_escape x r s) = false.
Proof.
  intros Hr Hry s. pattern s. revert s.
  apply string_pairs_ind; [reflexivity | reflexivity|].
  intros a b s IHs IHbs Hfree.
  rewrite has_pair_step in Hfree. apply orb_false_elim in Hfree as [Hab Hbs].
  assert (Hs : has_pair BACKSLASH y s = false).
  { destruct s as [|c s]; [reflexivity|].
    rewrite has_pair_step in Hbs. now apply orb_false_elim in Hbs. }
  rewrite replace_escape_step.
  destruct (Ascii.eqb a BACKSLASH && Ascii.eqb b x)%bool.
  - destruct (replace_escape x r s) as [|d t] eqn:E; [reflexivity|].
    rewrite has_pair_step, Hr, (IHs Hs). reflexivity.
  - destruct (replace_escape_head x r b s) as [t [E|E]];
      rewrite E in *; rewrite has_pair_step, (IHbs Hbs), orb_false_r.
    + rewrite Hry. apply andb_false_r.
    + exact Hab.
Qed.

Lemma replace_escape_no_backslash x r :
  forall s, has_char BACKSLASH s = false -> replace_escape x r s = s.
Proof.
  intros s. pattern s. revert s.
  apply string_pairs_ind; [reflexivity | reflexivity|].
  intros a b s _ IHbs Hfree. cbn [has_char] in Hfree.
  apply orb_false_elim in Hfree as [Ha Hbs].
  rewrite replace_escape_step, Ha. cbn [andb]. now rewrite IHbs.
Qed.

(** X4: a payload without a backslash is passed on as it is. *)
Theorem unescape_without_backslash data :
  has_char BACKSLASH data = false -> unescape data = data.
Proof.
  intros Hfree. unfold unescape.
  now rewrite (replace_escape_no_backslash _ _ data Hfree),
    (replace_escape_no_backslash _ _ data Hfree).
Qed.

Lemma unescape_without_backslash_witness :
  has_char BACKSLASH "Hola, como estas?" = false
  /\ unescape "Hola, como estas?" = "Hola, como estas?".
Proof.
  split; [reflexivity|].
  apply (unescape_without_backslash "Hola, como estas?"). reflexivity.
Defined.

Lemma unescape_no_escape_left data :
  has_pair BACKSLASH "n" (unescape data) = false
  /\ has_pair BACKSLASH "r" (unescape data) = false.
Proof.
  unfold unescape. split.
  - apply replace_escape_keeps_free; [reflexivity | reflexivity|].
    now apply replace_escape_removes.
  - now apply replace_escape_removes.
Qed.

End EscapeFacts.

(** * Facts about whole streams *)

Module StreamFacts.
Import JsString Json Api Escapes Stream JsStringFacts ApiFacts EscapeFacts.

Section Decoder.

Variable JSON_parse : string -> option JsValue.

Local Abbreviation on_data := (on_data JSON_parse).
Local Abbreviation process_line := (process_line JSON_parse).
Local Abbreviation for_lines := (for_lines JSON_parse).
Local Abbreviation on_chunk := (on_chunk JSON_parse).
Local Abbreviation read_loop := (read_loop JSON_parse).
Local Abbreviation try_block := (try_block JSON_parse).
Local Abbreviation sendChatStreamMessage := (sendChatStreamMessage JSON_parse).

(** *** Lines and chunk boundaries *)

(** X1: two ways of cutting the same text into chunks hand the same
    complete lines, in the same order, to the line loop and leave the same
    fragment in [buffer]. *)
Theorem same_text_same_lines values1 values2 :
  received values1 = received values2 ->
  lines_seen "" values1 = lines_seen "" values2
  /\ snd (read_loop "" values1) = snd (read_loop "" values2).
Proof.
  intros Htext. split.
  - rewrite !lines_seen_received by reflexivity. now rewrite Htext.
  - rewrite !read_loop_buffer by reflexivity. now rewrite Htext.
Qed.

(** *** Streams without [event: ] lines *)

Lemma process_line_plain line :
  startsWith "event: " line = false ->
  process_line "" line = ("", delta_of line).
Proof.
  intros Hevent. unfold Api.process_line, delta_of. rewrite Hevent.
  now destruct (startsWith "data: " line), (String.eqb (trim line) "").
Qed.

Lemma for_lines_plain lines :
  Forall (fun line => startsWith "event: " line = false) lines ->
  for_lines "" lines = ("", deltas lines).
Proof.
  induction 1 as [|line rest Hline Hrest IH]; [reflexivity|].
  cbn [Api.for_lines]. rewrite (process_line_plain _ Hline), IH.
  reflexivity.
Qed.

Lemma deltas_app l1 l2 : deltas (l1 ++ l2) = deltas l1 ++ deltas l2.
Proof. apply List.flat_map_app. Qed.

Lemma read_loop_plain values : forall buffer,
  Forall (fun line => startsWith "event: " line = false)
    (lines_seen buffer values) ->
  fst (read_loop buffer values) = deltas (lines_seen buffer values).
Proof.
  induction values as [|value rest IH]; intros buffer Hall; [reflexivity|].
  cbn [lines_seen] in *. apply Forall_app in Hall as [Hnow Hlater].
  rewrite read_loop_cons. cbn [fst]. rewrite deltas_app.
  rewrite (IH (snd (on_chunk buffer value)) Hlater).
  unfold Api.on_chunk at 1. cbn [fst].
  now rewrite (for_lines_plain _ Hnow).
Qed.

(** X2: when no complete line of the text received starts with
    [event: ], the calls are settled by that text alone: one [onDelta] per
    [data: ] line, in order, with the payload trimmed and unescaped, and
    then [onComplete]. *)
Theorem plain_stream_calls values :
  Forall (fun line => startsWith "event: " line = false)
    (popped (split_LF (received values))) ->
  sendChatStreamMessage (streaming values)
  = (deltas (popped (split_LF (received values))) ++ [OnComplete], Fulfilled).
Proof.
  intros Hall. rewrite sendChat_streaming.
  assert (Hlines : lines_seen "" values
                   = popped (split_LF (received values)))
    by (apply lines_seen_received; reflexivity).
  rewrite <- Hlines in *.
  now rewrite (read_loop_plain values "" Hall).
Qed.

(** *** What every call satisfies *)

Section Invariant.

Variable Q : Call -> Prop.
Hypothesis on_data_Q : forall ev data, Forall Q (on_data ev data).
Hypothesis complete_Q : Q OnComplete.
Hypothesis caught_Q :
  forall message, Q (ConsoleError message) /\ Q (OnError (JsString message)).

Lemma for_lines_Q lines : forall ev, Forall Q (snd (for_lines ev lines)).
Proof.
  induction lines as [|line rest IH]; intros ev; [constructor|].
  cbn [Api.for_lines]. unfold Api.process_line.
  destruct (startsWith "event: " line).
  - specialize (IH (trim (slice 7 line))).
    now destruct (for_lines (trim (slice 7 line)) rest).
  - destruct (startsWith "data: " line).
    + match goal with |- context [for_lines ?e rest] =>
        specialize (IH e); destruct (for_lines e rest) end.
      cbn [snd] in *. apply Forall_app. split; [apply on_data_Q | exact IH].
    + specialize (IH ev). now destruct (for_lines ev rest).
Qed.

Lemma read_loop_Q values : forall buffer,
  Forall Q (fst (read_loop buffer values)).
Proof.
  induction values as [|value rest IH]; intros buffer; [constructor|].
  rewrite read_loop_cons. cbn [fst]. apply Forall_app. split; [|apply IH].
  unfold Api.on_chunk. cbn [fst]. apply for_lines_Q.
Qed.

Lemma sendChat_Q outcome : Forall Q (fst (sendChatStreamMessage outcome)).
Proof.
  assert (Hcaught : forall message,
             Forall Q [ConsoleError message; OnError (JsString message)]).
  { intros message. destruct (caught_Q message). now repeat constructor. }
  unfold Api.sendChatStreamMessage.
  destruct outcome as [message | response]; [apply Hcaught|].
  destruct (ok response) eqn:Hok.
  - destruct (body response) as [stream|] eqn:Hbody.
    + rewrite (try_block_body JSON_parse _ _ Hok Hbody).
      destruct (ending stream) as [|message]; cbn [fst];
        apply Forall_app; (split; [apply read_loop_Q|]);
        [now repeat constructor | apply Hcaught].
    + rewrite (try_block_no_body JSON_parse _ Hok Hbody). apply Hcaught.
  - destruct (try_block_not_ok JSON_parse _ Hok) as [message ->].
    apply Hcaught.
Qed.

End Invariant.

(** X5: whatever the request does, [onInit] is only ever called with a
    truthy value: never with [undefined], [null], [0], [false] or the
    empty string. *)
Theorem onInit_only_truthy outcome :
  Forall (fun c => init_is_truthy c = true)
    (fst (sendChatStreamMessage outcome)).
Proof.
  apply sendChat_Q; [|reflexivity|now split].
  intros ev data. unfold Api.on_data.
  destruct (String.eqb ev "init").
  { destruct (JSON_parse data) as [parsed|]; [|now repeat constructor].
    destruct (js_get parsed "conversationId") as [v|];
      [|now repeat constructor].
    destruct (truthy v) eqn:Hv; now repeat constructor. }
  destruct (String.eqb ev "complete"); [now repeat constructor|].
  destruct (String.eqb ev "error"); [|now repeat constructor].
  destruct (JSON_parse data) as [parsed|]; [|now repeat constructor].
  destruct (js_get parsed "error"); now repeat constructor.
Qed.

(** X3: whatever the request does, the text of every [onDelta] call holds
    neither a backslash followed by [n] nor a backslash followed by
    [r]. *)
Theorem onDelta_text_unescaped outcome text :
  In (OnDelta text) (fst (sendChatStreamMessage outcome)) ->
  has_pair BACKSLASH "n" text = false /\ has_pair BACKSLASH "r" text = false.
Proof.
  intros Hin.
  pose (Q := fun c => match c with
                      | OnDelta t => has_pair BACKSLASH "n" t = false
                                     /\ has_pair BACKSLASH "r" t = false
                      | _ => True
                      end).
  assert (Hall : Forall Q (fst (sendChatStreamMessage outcome))).
  { apply sendChat_Q; [|exact I|now split].
    intros ev data. unfold Api.on_data.
    destruct (String.eqb ev "init").
    { destruct (JSON_parse data) as [parsed|]; [|now repeat constructor].
      destruct (js_get parsed "conversationId") as [v|];
        [|now repeat constructor].
      destruct (truthy v); now repeat constructor. }
    destruct (String.eqb ev "complete"); [now repeat constructor|].
    destruct (String.eqb ev "error").
    { destruct (JSON_parse data) as [parsed|]; [|now repeat constructor].
      destruct (js_get parsed "error"); now repeat constructor. }
    constructor; [|constructor]. apply unescape_no_escape_left. }
  rewrite List.Forall_forall in Hall. exact (Hall _ Hin).
Qed.

(** *** Carriage returns before the newline *)

Lemma startsWith_app_CR p : forall s,
  has_char CR p = false ->
  startsWith p (s +:+ String CR "") = startsWith p s.
Proof.
  induction p as [|a p IH]; intros s Hp; [now destruct s|].
  cbn [has_char] in Hp. apply orb_false_elim in Hp as [Ha Hp].
  destruct s as [|b s].
  - rewrite app_empty_l. cbn [startsWith]. now rewrite Ha.
  - rewrite app_String. cbn [startsWith]. now rewrite (IH s Hp).
Qed.

Lemma trimEnd_app_CR s : trimEnd (s +:+ String CR "") = trimEnd s.
Proof.
  induction s as [|c s IH]; [reflexivity|].
  rewrite app_String. cbn [trimEnd]. now rewrite IH.
Qed.

Lemma trim_app_CR s : trim (s +:+ String CR "") = trim s.
Proof.
  unfold trim. induction s as [|c s IH]; [reflexivity|].
  rewrite app_String. cbn [trimStart].
  destruct (is_space c); [exact IH|].
  rewrite <- app_String. apply trimEnd_app_CR.
Qed.

Lemma trim_slice_app_CR n : forall s,
  trim (slice n (s +:+ String CR "")) = trim (slice n s).
Proof.
  induction n as [|n IH]; intros s; [apply trim_app_CR|].
  destruct s as [|c s].
  - rewrite app_empty_l. cbn [slice]. now destruct n.
  - rewrite app_String. cbn [slice]. apply IH.
Qed.

Lemma process_line_CR ev line :
  process_line ev (line +:+ String CR "") = process_line ev line.
Proof.
  unfold Api.process_line.
  rewrite !startsWith_app_CR by reflexivity.
  now rewrite !trim_slice_app_CR, trim_app_CR.
Qed.

(** X6: lines that end in a carriage return, as a stream that ends its
    lines with CR LF gives them, make the same calls and leave the same
    event name as the lines without it. *)
Theorem carriage_returns_ignored lines : forall ev,
  for_lines ev (map (fun line => line +:+ String CR "") lines)
  = for_lines ev lines.
Proof.
  induction lines as [|line rest IH]; intros ev; [reflexivity|].
  cbn [map Api.for_lines]. rewrite process_line_CR.
  destruct (process_line ev line) as [ev' calls]. now rewrite IH.
Qed.

End Decoder.

(** *** Concrete streams *)

Lemma same_text_same_lines_witness :
  received [ln "data: Hel"; "data: l"; ln "o" +:+ "da"]
  = received [ln "data: Hel" +:+ "da"; "ta: " +:+ ln "lo" +:+ "da"]
  /\ lines_seen "" [ln "data: Hel"; "data: l"; ln "o" +:+ "da"]
     = ["data: Hel"; "data: lo"]
  /\ snd (read_loop JSON_parse_flat ""
            [ln "data: Hel" +:+ "da"; "ta: " +:+ ln "lo" +:+ "da"])
     = "da".
Proof.
  destruct (same_text_same_lines JSON_parse_flat
              [ln "data: Hel"; "data: l"; ln "o" +:+ "da"]
              [ln "data: Hel" +:+ "da"; "ta: " +:+ ln "lo" +:+ "da"]
              eq_refl) as [Hlines Hbuffer].
  split; [reflexivity|]. split; [reflexivity|].
  rewrite <- Hbuffer. reflexivity.
Defined.

Lemma plain_stream_calls_witness :
  Forall (fun line => startsWith "event: " line = false)
    (popped (split_LF (received [ln "data: Hel" +:+ "da"; "ta: " +:+ ln "lo";
                                 ln ": keep-alive"])))
  /\ sendChatStreamMessage JSON_parse_flat
       (streaming [ln "data: Hel" +:+ "da"; "ta: " +:+ ln "lo";
                   ln ": keep-alive"])
     = ([OnDelta "Hel"; OnDelta "lo"; OnComplete], Fulfilled).
Proof.
  assert (H : Forall (fun line => startsWith "event: " line = false)
                (popped (split_LF (received [ln "data: Hel" +:+ "da";
                                             "ta: " +:+ ln "lo";
                                             ln ": keep-alive"]))))
    by (repeat constructor).
  split; [exact H|].
  rewrite (plain_stream_calls JSON_parse_flat _ H). reflexivity.
Defined.

Lemma onDelta_text_unescaped_witness :
  In (OnDelta ("a" +:+ String LF "b"))
    (fst (sendChatStreamMessage JSON_parse_flat
            (streaming [ln ("data: a" +:+ String BACKSLASH "nb")])))
  /\ has_pair BACKSLASH "n" ("a" +:+ String LF "b") = false
  /\ has_pair BACKSLASH "r" ("a" +:+ String LF "b") = false.
Proof.
  assert (H : In (OnDelta ("a" +:+ String LF "b"))
                (fst (sendChatStreamMessage JSON_parse_flat
                        (streaming [ln ("data: a" +:+ String BACKSLASH "nb")]))))
    by (left; reflexivity).
  split; [exact H|].
  exact (onDelta_text_unescaped JSON_parse_flat _ _ H).
Defined.

End StreamFacts.

(** * Facts about the remaining operations of the history hook *)

Module HistoryOpsFacts.
Import Api History HistoryOps HistoryFacts.

(** *** [loadInitialMessages] *)

Lemma loadInitialMessages_rejected initialPageSize convId backend message h :
  convId <> "" ->
  backend (GetInitialMessages convId initialPageSize) = Rejects message ->
  loadInitialMessages initialPageSize convId backend h
  = (mkHook (messages h) (conversationId h) (hasMoreMessages h) false
       (isLoadingMore h) (currentPage h) ∅, Fulfilled).
Proof.
  intros Hconv Hbackend. unfold loadInitialMessages, loadInitialMessages_start.
  rewrite (falsy_Some _ Hconv), Hbackend. reflexivity.
Qed.

Lemma loadInitialMessages_resolves initialPageSize convId backend response h :
  convId <> "" ->
  backend (GetInitialMessages convId initialPageSize) = Resolves response ->
  loadInitialMessages initialPageSize convId backend h
  = (mkHook (map convertToMessage (page_messages response)) (Some convId)
       (hasMore response) false (isLoadingMore h) 0
       (add_ids (map convertToMessage (page_messages response)) ∅),
     Fulfilled).
Proof.
  intros Hconv Hbackend. unfold loadInitialMessages, loadInitialMessages_start.
  rewrite (falsy_Some _ Hconv), Hbackend. reflexivity.
Qed.

(** X7: a [loadInitialMessages] that succeeds replaces the list, the
    loaded-id set, the conversation, the page cursor and
    [hasMoreMessages]: two hooks that agree on [isLoadingMore] are in the
    same state afterwards, whatever they held before.  In particular a
    hook that was cleared with [clearHistory] ends as a new one does. *)
Theorem loadInitial_forgets_previous_state
    initialPageSize convId backend response h1 h2 :
  convId <> "" ->
  backend (GetInitialMessages convId initialPageSize) = Resolves response ->
  isLoadingMore h1 = isLoadingMore h2 ->
  loadInitialMessages initialPageSize convId backend h1
  = loadInitialMessages initialPageSize convId backend h2
  /\ (isLoadingMore h1 = false ->
      loadInitialMessages initialPageSize convId backend (clearHistory h1)
      = loadInitialMessages initialPageSize convId backend initial).
Proof.
  intros Hconv Hbackend Hloading. split.
  - rewrite !(loadInitialMessages_resolves _ _ _ _ _ Hconv Hbackend).
    now rewrite Hloading.
  - intros Hidle.
    rewrite !(loadInitialMessages_resolves _ _ _ _ _ Hconv Hbackend).
    cbn. now rewrite Hidle.
Qed.

(** X8: a [loadInitialMessages] whose request rejects ends with its
    promise fulfilled and [isLoadingHistory] false; it keeps the list, the
    conversation, the page cursor and [hasMoreMessages], but the loaded-id
    set is left empty, so a list that was not empty is no longer
    tracked by it. *)
Theorem loadInitial_rejected_empties_id_set
    initialPageSize convId backend message h :
  convId <> "" ->
  backend (GetInitialMessages convId initialPageSize) = Rejects message ->
  let h' := fst (loadInitialMessages initialPageSize convId backend h) in
  snd (loadInitialMessages initialPageSize convId backend h) = Fulfilled
  /\ messages h' = messages h
  /\ conversationId h' = conversationId h
  /\ currentPage h' = currentPage h
  /\ hasMoreMessages h' = hasMoreMessages h
  /\ isLoadingHistory h' = false
  /\ loadedMessageIds h' = ∅
  /\ (messages h <> [] -> ~ tracked h').
Proof.
  intros Hconv Hbackend h'. subst h'.
  rewrite (loadInitialMessages_rejected _ _ _ _ _ Hconv Hbackend).
  cbn [fst snd messages conversationId currentPage hasMoreMessages
         isLoadingHistory loadedMessageIds].
  repeat (split; [reflexivity|]).
  intros Hlist Htracked. destruct (messages h) as [|m l] eqn:E; [congruence|].
  unfold tracked in Htracked.
  cbn [messages loadedMessageIds] in Htracked.
  specialize (Htracked (id m)).
  assert (Hin : id m ∈ (∅ : gset string)).
  { apply Htracked. now left. }
  now apply not_elem_of_empty in Hin.
Qed.

(** *** The loaded-id set and the list *)

(** X9: the loaded-id set holds exactly the ids of the listed messages in
    a new hook, after [clearHistory], and after every
    [loadInitialMessages] that succeeds; a [loadMoreMessages] that
    succeeds or whose request rejects keeps it so. *)
Theorem ids_tracked :
  tracked initial
  /\ (forall h, tracked (clearHistory h))
  /\ (forall initialPageSize convId backend response h,
        convId <> "" ->
        backend (GetInitialMessages convId initialPageSize)
        = Resolves response ->
        tracked (fst (loadInitialMessages initialPageSize convId backend h)))
  /\ (forall f backend h,
        tracked h -> tracked (fst (loadMoreMessages f backend h))).
Proof.
  split; [|split; [|split]].
  - intros x. cbn. split; [|tauto]. intros H. now apply not_elem_of_empty in H.
  - intros h x. cbn. split; [|tauto].
    intros H. now apply not_elem_of_empty in H.
  - intros initialPageSize convId backend response h Hconv Hbackend x.
    rewrite (loadInitialMessages_resolves _ _ _ _ _ Hconv Hbackend).
    cbn [fst messages loadedMessageIds]. rewrite elem_of_add_ids.
    split; [intros [H|H]; [now apply not_elem_of_empty in H | exact H]|].
    now right.
  - intros f backend h Htracked x.
    unfold loadMoreMessages, loadMoreMessages_start.
    destruct (guard f); [apply Htracked|].
    unfold loadMoreMessages_resume, loadMoreMessages_try.
    destruct (backend _) as [response | message].
    + cbn [fst messages loadedMessageIds setIsLoadingMore setCurrentPage
             setHasMoreMessages setMessages setLoadedMessageIds].
      rewrite elem_of_add_ids, List.map_app, List.in_app_iff.
      rewrite (Htracked x). tauto.
    + apply Htracked.
Qed.

(** *** Pages fetched again and the last page *)

Lemma newMessages_all_loaded loaded dtos :
  (forall d, In d dtos -> toString (dto_id d) ∈ loaded) ->
  newMessages loaded dtos = [].
Proof.
  intros Hall. unfold newMessages.
  induction dtos as [|d dtos IH]; [reflexivity|]. cbn [List.filter].
  assert (Hd : has loaded (toString (dto_id d)) = true).
  { apply has_true, Hall. now left. }
  rewrite Hd. cbn [negb]. apply IH. intros d' Hd'. apply Hall. now right.
Qed.

Lemma page_loaded_after f response h :
  guard f = false ->
  forall d, In d (page_messages response) ->
  toString (dto_id d)
  ∈ loadedMessageIds
      (fst (loadMoreMessages f (fun _ => Resolves response) h)).
Proof.
  intros Hguard d Hd. rewrite (loadMoreMessages_resolved _ _ _ Hguard).
  cbn [fst loadedMessageIds]. apply elem_of_add_ids.
  destruct (has (loadedMessageIds h) (toString (dto_id d))) eqn:Hhas.
  - left. now apply has_true.
  - right. unfold newMessages. rewrite List.map_map.
    apply List.in_map_iff. exists d. split; [reflexivity|].
    apply List.filter_In. split; [exact Hd|]. now rewrite Hhas.
Qed.

(** X10: fetching the same page a second time, for example through a
    closure that still holds the old page cursor, adds nothing: the list
    and the loaded-id set are as after the first fetch. *)
Theorem same_page_twice_adds_nothing f1 f2 response h :
  guard f1 = false ->
  guard f2 = false ->
  let h1 := fst (loadMoreMessages f1 (fun _ => Resolves response) h) in
  let h2 := fst (loadMoreMessages f2 (fun _ => Resolves response) h1) in
  messages h2 = messages h1 /\ loadedMessageIds h2 = loadedMessageIds h1.
Proof.
  intros Hguard1 Hguard2 h1 h2. subst h2.
  pose proof (page_loaded_after f1 response h Hguard1) as Hloaded.
  fold h1 in Hloaded.
  rewrite (loadMoreMessages_resolved f2 _ _ Hguard2).
  cbn [fst messages loadedMessageIds].
  rewrite (newMessages_all_loaded _ _ Hloaded).
  split; reflexivity.
Qed.

Lemma load_pages_no_more pageSize responses : forall h,
  hasMoreMessages h = false -> load_pages pageSize responses h = h.
Proof.
  induction responses as [|response rest IH]; intros h Hmore; [reflexivity|].
  cbn [load_pages].
  assert (Hguard : guard (render pageSize h) = true).
  { unfold guard, render. cbn. rewrite Hmore. cbn.
    now rewrite orb_true_r. }
  destruct (loadMoreMessages_guarded (render pageSize h)
              (fun _ => Resolves response) h Hguard) as [_ ->].
  cbn [fst]. now apply IH.
Qed.

(** X11: once a page arrives with [hasMore] false, further
    [loadMoreMessages] calls made through the closures of later renders
    change nothing, however many pages the backend would still answer
    with. *)
Theorem nothing_loaded_after_last_page f response pageSize responses h :
  guard f = false ->
  hasMore response = false ->
  let h1 := fst (loadMoreMessages f (fun _ => Resolves response) h) in
  load_pages pageSize responses h1 = h1.
Proof.
  intros Hguard Hlast h1. apply load_pages_no_more. subst h1.
  rewrite (loadMoreMessages_resolved _ _ _ Hguard). exact Hlast.
Qed.

(** X12: with a conversation, more pages to load and no load in flight,
    loading pages one after the other, each through the closure of the
    latest render, advances the page cursor by one per page as long as
    every page but the last says [hasMore]; the flag then is that of the
    last page, and the conversation is kept. *)
Theorem page_cursor_counts_pages pageSize responses last : forall h,
  falsy (conversationId h) = false ->
  hasMoreMessages h = true ->
  isLoadingMore h = false ->
  Forall (fun response => hasMore response = true) responses ->
  let h' := load_pages pageSize (responses ++ [last]) h in
  currentPage h' = (currentPage h + Z.of_nat (length responses) + 1)%Z
  /\ hasMoreMessages h' = hasMore last
  /\ conversationId h' = conversationId h
  /\ isLoadingMore h' = false.
Proof.
  induction responses as [|response rest IH];
    intros h Hconv Hmore Hidle Hall h'; subst h'.
  - cbn [app load_pages length].
    assert (Hguard : guard (render pageSize h) = false).
    { unfold guard, render. cbn. now rewrite Hconv, Hmore, Hidle. }
    rewrite (loadMoreMessages_resolved _ _ _ Hguard).
    cbn. repeat split; lia.
  - apply Forall_cons_1 in Hall as [Hthis Hrest].
    assert (Hguard : guard (render pageSize h) = false).
    { unfold guard, render. cbn. now rewrite Hconv, Hmore, Hidle. }
    cbn [app load_pages]. rewrite (loadMoreMessages_resolved _ _ _ Hguard).
    cbn [fst].
    match goal with |- context [load_pages _ _ ?h1] =>
      destruct (IH h1) as (Hpage & Hflag & Hconv' & Hidle');
        [exact Hconv | exact Hthis | reflexivity | exact Hrest |]
    end.
    cbn [currentPage conversationId render seen_currentPage] in *.
    rewrite Hpage, Hflag, Hconv', Hidle'. cbn [length].
    repeat split; lia.
Qed.

(** *** [loadActiveConversation] *)

(** X13: whenever [loadActiveConversation] returns [null] (no patient id
    or the id 0, no active conversation, or a request that rejects) the
    list, the loaded-id set, the conversation, the page cursor and both
    [hasMoreMessages] and [isLoadingMore] are as before the call; with no
    patient id the hook is not touched at all. *)
Theorem null_result_changes_nothing
    patientId initialPageSize active backend h :
  snd (loadActiveConversation patientId initialPageSize active backend h)
  = None ->
  let h' := fst (loadActiveConversation patientId initialPageSize active
                   backend h) in
  messages h' = messages h
  /\ loadedMessageIds h' = loadedMessageIds h
  /\ conversationId h' = conversationId h
  /\ currentPage h' = currentPage h
  /\ hasMoreMessages h' = hasMoreMessages h
  /\ isLoadingMore h' = isLoadingMore h
  /\ (falsy_number patientId = true -> h' = h)
  /\ (falsy_number patientId = false -> isLoadingHistory h' = false).
Proof.
  unfold loadActiveConversation.
  destruct (falsy_number patientId).
  { intros _. cbn [fst].
    repeat split; intros; (reflexivity || discriminate). }
  destruct (active _) as [[conversation|]|message]; [discriminate| |];
    intros _; cbn; repeat split; intros; (reflexivity || discriminate).
Qed.

(** X14: when the patient has an active conversation and its first page
    arrives, [loadActiveConversation] returns the conversation and leaves
    the hook as [loadInitialMessages] alone, called for that conversation,
    leaves it. *)
Theorem active_conversation_is_initial_load
    p initialPageSize active backend conversation response h :
  p <> 0%Z ->
  active p = ActiveResolves (Some conversation) ->
  externalConversationId conversation <> "" ->
  backend (GetInitialMessages (externalConversationId conversation)
             initialPageSize) = Resolves response ->
  loadActiveConversation (Some p) initialPageSize active backend h
  = (fst (loadInitialMessages initialPageSize
            (externalConversationId conversation) backend h),
     Some conversation).
Proof.
  intros Hp Hactive Hext Hbackend. unfold loadActiveConversation.
  change (default 0%Z (Some p)) with p.
  cbn [falsy_number]. apply Z.eqb_neq in Hp. rewrite Hp, Hactive.
  now rewrite !(loadInitialMessages_resolves _ _ _ _ _ Hext Hbackend).
Qed.

(** X15: when the patient has an active conversation but the request for
    its first page rejects, [loadActiveConversation] still returns the
    conversation and the hook now names it, while the list is the one
    shown before and the loaded-id set is empty. *)
Theorem active_conversation_adopted_without_messages
    p initialPageSize active backend conversation message h :
  p <> 0%Z ->
  active p = ActiveResolves (Some conversation) ->
  externalConversationId conversation <> "" ->
  backend (GetInitialMessages (externalConversationId conversation)
             initialPageSize) = Rejects message ->
  let result := loadActiveConversation (Some p) initialPageSize active
                  backend h in
  snd result = Some conversation
  /\ conversationId (fst result)
     = Some (externalConversationId conversation)
  /\ messages (fst result) = messages h
  /\ loadedMessageIds (fst result) = ∅
  /\ isLoadingHistory (fst result) = false.
Proof.
  intros Hp Hactive Hext Hbackend result. subst result.
  unfold loadActiveConversation.
  change (default 0%Z (Some p)) with p.
  cbn [falsy_number]. apply Z.eqb_neq in Hp. rewrite Hp, Hactive.
  rewrite (loadInitialMessages_rejected _ _ _ _ _ Hext Hbackend).
  cbn. repeat split; reflexivity.
Qed.

(** *** Answers that arrive late *)

Lemma newMessages_nothing_loaded dtos :
  newMessages ∅ dtos = map convertToMessage dtos.
Proof.
  unfold newMessages. f_equal.
  induction dtos as [|d dtos IH]; [reflexivity|]. cbn [List.filter].
  assert (Hd : has ∅ (toString (dto_id d)) = false)
    by (apply has_false, not_elem_of_empty).
  rewrite Hd. cbn [negb]. now rewrite IH.
Qed.

(** X19: [clearHistory] does not stop a page request that is under way:
    when its answer arrives, the whole page is put on the cleared list and
    the page cursor moves on, while the hook names no conversation. *)
Theorem page_arrives_after_clear f response h :
  guard f = false ->
  let started := fst (loadMoreMessages_start f h) in
  let h' := fst (loadMoreMessages_resume f (Resolves response)
                   (clearHistory started)) in
  messages h' = map convertToMessage (page_messages response)
  /\ conversationId h' = None
  /\ currentPage h' = (seen_currentPage f + 1)%Z
  /\ hasMoreMessages h' = hasMore response
  /\ isLoadingMore h' = false.
Proof.
  intros Hguard started h'. subst h' started.
  unfold loadMoreMessages_start. rewrite Hguard.
  cbn. rewrite newMessages_nothing_loaded, List.app_nil_r.
  repeat split; reflexivity.
Qed.

Lemma add_ids_page dtos (s : gset string) x :
  x ∈ add_ids (map convertToMessage dtos) s <-> x ∈ s \/ In x (page_ids dtos).
Proof.
  rewrite elem_of_add_ids, List.map_map. reflexivity.
Qed.

(** X20: two [loadInitialMessages] calls that overlap: when the answer to
    the first call arrives after the answer to the second, the list and
    the conversation are those of the first call, and the loaded-id set
    holds the ids of both pages. *)
Theorem late_initial_answer_wins
    initialPageSize first second page1 page2 h :
  first <> "" ->
  second <> "" ->
  let h1 := fst (loadInitialMessages_start initialPageSize first h) in
  let h2 := fst (loadInitialMessages_start initialPageSize second h1) in
  let h3 := fst (loadInitialMessages_resume second (Resolves page2) h2) in
  let h4 := fst (loadInitialMessages_resume first (Resolves page1) h3) in
  messages h4 = map convertToMessage (page_messages page1)
  /\ conversationId h4 = Some first
  /\ hasMoreMessages h4 = hasMore page1
  /\ (forall x, x ∈ loadedMessageIds h4
                <-> In x (page_ids (page_messages page2))
                    \/ In x (page_ids (page_messages page1))).
Proof.
  intros Hfirst Hsecond h1 h2 h3 h4. subst h4 h3 h2 h1.
  unfold loadInitialMessages_start.
  rewrite (falsy_Some _ Hfirst), (falsy_Some _ Hsecond).
  cbn [fst loadInitialMessages_resume loadInitialMessages_try messages
         conversationId hasMoreMessages loadedMessageIds setIsLoadingHistory
         setLoadedMessageIds setMessages setHasMoreMessages setCurrentPage
         setConversationId].
  repeat (split; [reflexivity|]).
  intros x. rewrite !add_ids_page. split.
  - intros [[H|H]|H]; [now apply not_elem_of_empty in H | now left | now right].
  - intros [H|H]; [left; now right | now right].
Qed.

(** *** Ids of a page *)

(** X21: messages of a page whose numeric ids are safe integers, of
    magnitude below 2^53 where [toString] gives the decimal digits, and
    pairwise different get pairwise different ids. *)
Theorem different_numbers_different_ids dtos :
  Forall (fun d => (Z.abs (dto_id d) < 2 ^ 53)%Z) dtos ->
  List.NoDup (map dto_id dtos) -> List.NoDup (page_ids dtos).
Proof.
  intros _.
  unfold page_ids. induction dtos as [|d dtos IH]; [constructor|].
  cbn [map]. intros [Hfresh Hrest]%List.NoDup_cons_iff.
  constructor; [|now apply IH].
  intros (d' & Heq & Hd')%List.in_map_iff. apply Hfresh.
  unfold toString in Heq. apply (inj (pretty : Z -> string)) in Heq.
  rewrite <- Heq. now apply List.in_map.
Qed.

(** *** Concrete hooks *)

Lemma page_arrives_after_clear_witness :
  let response := page_of [sample 98 800; sample 99 900] in
  let f := render 20 showing_100 in
  let h' := fst (loadMoreMessages_resume f (Resolves response)
                   (clearHistory (fst (loadMoreMessages_start f
                                         showing_100)))) in
  guard f = false
  /\ map id (messages h') = ["98"; "99"]
  /\ conversationId h' = None
  /\ currentPage h' = 1%Z.
Proof.
  intros response f h'.
  destruct (page_arrives_after_clear f response showing_100 eq_refl)
    as (Hlist & Hconv & Hpage & _).
  split; [reflexivity|]. split; [|split; [exact Hconv | exact Hpage]].
  unfold h'. rewrite Hlist. vm_compute. reflexivity.
Defined.

Lemma late_initial_answer_wins_witness :
  let page1 := page_of [sample 100 1000] in
  let page2 := page_of [sample 200 5000] in
  let h1 := fst (loadInitialMessages_start 15 "c1" initial) in
  let h2 := fst (loadInitialMessages_start 15 "c2" h1) in
  let h3 := fst (loadInitialMessages_resume "c2" (Resolves page2) h2) in
  let h4 := fst (loadInitialMessages_resume "c1" (Resolves page1) h3) in
  "c1" <> "" /\ "c2" <> ""
  /\ map id (messages h4) = ["100"]
  /\ conversationId h4 = Some "c1"
  /\ "200" ∈ loadedMessageIds h4.
Proof.
  intros page1 page2 h1 h2 h3 h4.
  assert (H1 : "c1" <> "") by discriminate.
  assert (H2 : "c2" <> "") by discriminate.
  destruct (late_initial_answer_wins 15%Z "c1" "c2" page1 page2 initial
              H1 H2) as (Hlist & Hconv & _ & Hset).
  split; [exact H1|]. split; [exact H2|]. split.
  { unfold h4, h3, h2, h1. rewrite Hlist. vm_compute. reflexivity. }
  split; [exact Hconv|].
  apply Hset. left. vm_compute. now left.
Defined.

Lemma different_numbers_different_ids_witness :
  Forall (fun d => (Z.abs (dto_id d) < 2 ^ 53)%Z)
    [sample 98 800; sample 99 900; sample 100 1000]
  /\ List.NoDup (map dto_id [sample 98 800; sample 99 900; sample 100 1000])
  /\ page_ids [sample 98 800; sample 99 900; sample 100 1000]
     = ["98"; "99"; "100"]
  /\ List.NoDup (page_ids [sample 98 800; sample 99 900; sample 100 1000]).
Proof.
  assert (H : List.NoDup
                (map dto_id [sample 98 800; sample 99 900; sample 100 1000])).
  { cbn. repeat constructor; cbn; intuition discriminate. }
  assert (Hsafe : Forall (fun d => (Z.abs (dto_id d) < 2 ^ 53)%Z)
                    [sample 98 800; sample 99 900; sample 100 1000])
    by (repeat constructor; cbn; lia).
  split; [exact Hsafe|]. split; [exact H|].
  split; [vm_compute; reflexivity|].
  exact (different_numbers_different_ids _ Hsafe H).
Defined.


Lemma loadInitial_forgets_previous_state_witness :
  let backend := fun _ : Request =>
                   Resolves (page_of [sample 100 1000; sample 101 2000]) in
  "c1" <> ""
  /\ isLoadingMore showing_100 = isLoadingMore initial
  /\ loadInitialMessages 15 "c1" backend showing_100
     = loadInitialMessages 15 "c1" backend initial
  /\ map id (messages (fst (loadInitialMessages 15 "c1" backend
                              showing_100)))
     = ["100"; "101"].
Proof.
  intros backend.
  assert (Hconv : "c1" <> "") by discriminate.
  destruct (loadInitial_forgets_previous_state 15%Z "c1" backend
              (page_of [sample 100 1000; sample 101 2000])
              showing_100 initial Hconv eq_refl eq_refl) as [Hsame _].
  split; [exact Hconv|]. split; [reflexivity|]. split; [exact Hsame|].
  rewrite Hsame. vm_compute. reflexivity.
Defined.

Lemma loadInitial_rejected_empties_id_set_witness :
  let backend := fun _ : Request =>
                   Rejects "Failed to fetch initial messages" in
  let h' := fst (loadInitialMessages 15 "c1" backend showing_100) in
  "c1" <> ""
  /\ messages h' = messages showing_100
  /\ loadedMessageIds h' = ∅
  /\ ~ tracked h'.
Proof.
  intros backend h'.
  assert (Hconv : "c1" <> "") by discriminate.
  destruct (loadInitial_rejected_empties_id_set 15%Z "c1" backend
              "Failed to fetch initial messages" showing_100 Hconv eq_refl)
    as (_ & Hlist & _ & _ & _ & _ & Hset & Huntracked).
  split; [exact Hconv|]. split; [exact Hlist|]. split; [exact Hset|].
  apply Huntracked. discriminate.
Defined.

Lemma ids_tracked_witness :
  let h' := fst (loadMoreMessages (render 20 showing_100)
                   (fun _ => Resolves (page_of [sample 99 900;
                                                sample 100 1000]))
                   showing_100) in
  tracked showing_100
  /\ map id (messages h') = ["99"; "100"]
  /\ tracked h'.
Proof.
  intros h'.
  assert (H : tracked showing_100).
  { intros x. change (loadedMessageIds showing_100)
      with ({[ "100" ]} : gset string).
    change (map id (messages showing_100)) with ["100"].
    rewrite elem_of_singleton. cbn [In]. intuition auto. }
  destruct ids_tracked as (_ & _ & _ & Hmore).
  split; [exact H|]. split; [vm_compute; reflexivity|].
  apply Hmore. exact H.
Defined.

Lemma same_page_twice_adds_nothing_witness :
  let response := page_of [sample 98 800; sample 99 900] in
  let f := render 20 showing_100 in
  let h1 := fst (loadMoreMessages f (fun _ => Resolves response)
                   showing_100) in
  let h2 := fst (loadMoreMessages f (fun _ => Resolves response) h1) in
  guard f = false
  /\ map id (messages h1) = ["98"; "99"; "100"]
  /\ messages h2 = messages h1
  /\ loadedMessageIds h2 = loadedMessageIds h1.
Proof.
  intros response f h1 h2.
  destruct (same_page_twice_adds_nothing f f response showing_100
              eq_refl eq_refl) as [Hlist Hset].
  split; [reflexivity|]. split; [vm_compute; reflexivity|].
  split; [exact Hlist | exact Hset].
Defined.

Lemma nothing_loaded_after_last_page_witness :
  let last_page := page_of [sample 99 900] in
  let h1 := fst (loadMoreMessages (render 20 showing_100)
                   (fun _ => Resolves last_page) showing_100) in
  guard (render 20 showing_100) = false
  /\ hasMore last_page = false
  /\ load_pages 20 [page_of [sample 98 800]; page_of [sample 97 700]] h1
     = h1.
Proof.
  intros last_page h1. split; [reflexivity|]. split; [reflexivity|].
  apply (nothing_loaded_after_last_page (render 20%Z showing_100) last_page
           20%Z [page_of [sample 98 800]; page_of [sample 97 700]]
           showing_100); reflexivity.
Defined.

Lemma page_cursor_counts_pages_witness :
  let more := mkPage [sample 99 900] 1 20 3 3 true "c1" in
  let last_page := mkPage [sample 98 800] 2 20 3 3 false "c1" in
  let h' := load_pages 20 ([more] ++ [last_page]) showing_100 in
  falsy (conversationId showing_100) = false
  /\ hasMoreMessages showing_100 = true
  /\ isLoadingMore showing_100 = false
  /\ Forall (fun response => hasMore response = true) [more]
  /\ currentPage h' = 2%Z
  /\ hasMoreMessages h' = false.
Proof.
  intros more last_page h'.
  assert (Hall : Forall (fun response => hasMore response = true) [more])
    by (repeat constructor).
  destruct (page_cursor_counts_pages 20%Z [more] last_page showing_100
              eq_refl eq_refl eq_refl Hall) as (Hpage & Hflag & _ & _).
  split; [reflexivity|]. split; [reflexivity|]. split; [reflexivity|].
  split; [exact Hall|]. split; [exact Hpage | exact Hflag].
Defined.

Lemma null_result_changes_nothing_witness :
  let active := fun _ : Z => ActiveResolves None in
  let backend := fun _ : Request => Rejects "not reached" in
  let result := loadActiveConversation (Some 7%Z) 15 active backend
                  showing_100 in
  snd result = None
  /\ messages (fst result) = messages showing_100
  /\ loadedMessageIds (fst result) = loadedMessageIds showing_100
  /\ snd (loadActiveConversation (Some 0%Z) 15 active backend showing_100)
     = None
  /\ fst (loadActiveConversation (Some 0%Z) 15 active backend showing_100)
     = showing_100.
Proof.
  intros active backend result.
  destruct (null_result_changes_nothing (Some 7%Z) 15%Z active backend
              showing_100 eq_refl) as (Hlist & Hset & _).
  destruct (null_result_changes_nothing (Some 0%Z) 15%Z active backend
              showing_100 eq_refl) as (_ & _ & _ & _ & _ & _ & Hsame & _).
  split; [reflexivity|]. split; [exact Hlist|]. split; [exact Hset|].
  split; [reflexivity|]. apply Hsame. reflexivity.
Defined.

Lemma active_conversation_is_initial_load_witness :
  let conversation := mkConversation 1 "c1" ACTIVE None "2024-05-01T10:00:00"
                        "2024-05-01T10:05:00" 2 None in
  let active := fun _ : Z => ActiveResolves (Some conversation) in
  let backend := fun _ : Request =>
                   Resolves (page_of [sample 100 1000; sample 101 2000]) in
  7%Z <> 0%Z
  /\ externalConversationId conversation <> ""
  /\ loadActiveConversation (Some 7%Z) 15 active backend initial
     = (fst (loadInitialMessages 15 "c1" backend initial), Some conversation).
Proof.
  intros conversation active backend.
  assert (Hp : 7%Z <> 0%Z) by discriminate.
  assert (Hext : externalConversationId conversation <> "") by discriminate.
  split; [exact Hp|]. split; [exact Hext|].
  exact (active_conversation_is_initial_load 7%Z 15%Z active backend
           conversation (page_of [sample 100 1000; sample 101 2000]) initial
           Hp eq_refl Hext eq_refl).
Defined.

Lemma active_conversation_adopted_without_messages_witness :
  let conversation := mkConversation 2 "c2" ACTIVE None "2024-05-02T10:00:00"
                        "2024-05-02T10:05:00" 4 None in
  let active := fun _ : Z => ActiveResolves (Some conversation) in
  let backend := fun _ : Request =>
                   Rejects "Failed to fetch initial messages" in
  let result := loadActiveConversation (Some 7%Z) 15 active backend
                  showing_100 in
  7%Z <> 0%Z
  /\ externalConversationId conversation <> ""
  /\ snd result = Some conversation
  /\ conversationId (fst result) = Some "c2"
  /\ map id (messages (fst result)) = ["100"]
  /\ loadedMessageIds (fst result) = ∅.
Proof.
  intros conversation active backend result.
  assert (Hp : 7%Z <> 0%Z) by discriminate.
  assert (Hext : externalConversationId conversation <> "") by discriminate.
  destruct (active_conversation_adopted_without_messages 7%Z 15%Z active
              backend conversation "Failed to fetch initial messages"
              showing_100 Hp eq_refl Hext eq_refl)
    as (Hresult & Hconv & Hlist & Hset & _).
  split; [exact Hp|]. split; [exact Hext|]. split; [exact Hresult|].
  split; [exact Hconv|]. split; [|exact Hset].
  unfold result. rewrite Hlist. reflexivity.
Defined.

End HistoryOpsFacts.

(** * Facts about the chat page *)

Module ChatFacts.
Import History Chat JsStringFacts.

(** The model applies each [setMessages] update when it is queued.  An
    update queued by the delta callback reads [assistantContent] when it
    is applied; once every queued update has been applied the list is the
    same either way, since the last update decides the content. *)

Lemma with_content_fresh aid content l :
  (forall m, In m l -> id m <> aid) -> with_content aid content l = l.
Proof.
  intros Hfresh. unfold with_content.
  induction l as [|m l IH]; [reflexivity|]. cbn [map].
  assert (Hm : String.eqb (id m) aid = false).
  { apply String.eqb_neq, Hfresh. now left. }
  rewrite Hm, IH; [reflexivity|]. intros m' Hm'. apply Hfresh. now right.
Qed.

Lemma with_content_app aid content l1 l2 :
  with_content aid content (l1 ++ l2)
  = with_content aid content l1 ++ with_content aid content l2.
Proof. apply List.map_app. Qed.

Lemma with_content_twice aid c1 c2 l :
  with_content aid c2 (with_content aid c1 l) = with_content aid c2 l.
Proof.
  unfold with_content. rewrite List.map_map. apply List.map_ext.
  intros m. destruct (String.eqb (id m) aid) eqn:E;
    cbn [id]; now rewrite E.
Qed.

Lemma user_id_is_not_assistantId clock messageText :
  (user_now clock <= assistant_now clock)%Z ->
  id (userMessage clock messageText) <> assistantId clock.
Proof.
  intros Hclock Heq. cbn [id userMessage] in Heq.
  unfold assistantId, toString in Heq.
  apply (inj (pretty : Z -> string)) in Heq. lia.
Qed.

(** X16: the message of the user and the placeholder of the assistant
    that one [handleSendMessage] call adds have different ids, as long as
    the clock does not run backwards between the two reads. *)
Theorem send_ids_differ clock messageText :
  (user_now clock <= assistant_now clock)%Z ->
  id (userMessage clock messageText) <> id (placeholder clock).
Proof. apply user_id_is_not_assistantId. Qed.

Lemma send_ids_differ_witness :
  let clock := mkClock 1714557600000 1714557600000 1714557600000
                 1714557600001 in
  (user_now clock <= assistant_now clock)%Z
  /\ id (userMessage clock "Hola") = "1714557600000"
  /\ id (placeholder clock) = "1714557600001"
  /\ id (userMessage clock "Hola") <> id (placeholder clock).
Proof.
  intros clock.
  assert (Hclock : (user_now clock <= assistant_now clock)%Z)
    by (cbn; lia).
  split; [exact Hclock|]. split; [vm_compute; reflexivity|].
  split; [vm_compute; reflexivity|].
  exact (send_ids_differ clock "Hola" Hclock).
Defined.

Lemma signals_run_app clock sigs1 sigs2 s :
  signals_run clock (sigs1 ++ sigs2) s
  = signals_run clock sigs2 (signals_run clock sigs1 s).
Proof. apply List.fold_left_app. Qed.

(** The delta callbacks, called for [texts] in order, on a list that ends
    with the message of the user and the message of the assistant. *)
Lemma deltas_run clock texts : forall before u acc instant typing,
  (forall m, In m before -> id m <> assistantId clock) ->
  id u <> assistantId clock ->
  signals_run clock (map Delta texts)
    (mkSending
       (mkChatPage
          (before ++ [u; mkMessage (assistantId clock) acc misha instant])
          typing)
       acc)
  = mkSending
      (mkChatPage
         (before ++ [u; mkMessage (assistantId clock) (acc +:+ joined texts)
                          misha instant])
         typing)
      (acc +:+ joined texts).
Proof.
  induction texts as [|text rest IH];
    intros before u acc instant typing Hbefore Hu.
  - cbn [map signals_run fold_left joined fold_right].
    now rewrite app_empty_r.
  - cbn [map signals_run fold_left signal].
    change (fold_left (fun acc0 sig => signal clock sig acc0)
              (map Delta rest))
      with (signals_run clock (map Delta rest)).
    unfold onDelta at 1.
    cbn [page_state shown isTyping assistantContent].
    rewrite with_content_app, (with_content_fresh _ _ before Hbefore).
    cbn [with_content map id sender timestamp].
    apply String.eqb_neq in Hu. rewrite Hu, String.eqb_refl.
    apply String.eqb_neq in Hu.
    rewrite (IH before u (acc +:+ text) instant typing Hbefore Hu).
    cbn [joined fold_right].
    change (fold_right append "" rest) with (joined rest).
    now rewrite app_assoc.
Qed.

(** X17: when no message shown before has the id of the new assistant
    message and the clock does not run backwards, then after the delta
    callback was called for each of [texts] and the completion callback
    once, the list is the one shown before, the message of the user and
    the message of the assistant; its content is the texts joined in
    order, or the apology when that is empty; [isTyping] is false. *)
Theorem reply_is_the_deltas_joined clock messageText p texts :
  (forall m, In m (shown p) -> id m <> assistantId clock) ->
  (user_now clock <= assistant_now clock)%Z ->
  let s := signals_run clock (map Delta texts ++ [Complete])
             (handleSendMessage_start clock messageText p) in
  shown (page_state s)
  = shown p
    ++ [userMessage clock messageText;
        mkMessage (assistantId clock)
          (if String.eqb (joined texts) "" then apology else joined texts)
          misha (assistant_date clock)]
  /\ isTyping (page_state s) = false.
Proof.
  intros Hfresh Hclock s. subst s.
  pose proof (user_id_is_not_assistantId clock messageText Hclock) as Hu.
  rewrite signals_run_app. unfold handleSendMessage_start.
  rewrite <- List.app_assoc. cbn [app]. unfold placeholder at 1.
  rewrite (deltas_run clock texts (shown p) (userMessage clock messageText)
             "" (assistant_date clock) true Hfresh Hu).
  rewrite app_empty_l.
  cbn [signals_run fold_left signal]. unfold onComplete.
  cbn [page_state shown isTyping assistantContent].
  split; [|reflexivity].
  destruct (String.eqb (joined texts) "") eqn:Hempty; [|reflexivity].
  rewrite with_content_app, (with_content_fresh _ _ (shown p) Hfresh).
  cbn [with_content map id sender timestamp].
  apply String.eqb_neq in Hu. now rewrite Hu, String.eqb_refl.
Qed.

Lemma reply_is_the_deltas_joined_witness :
  let clock := mkClock 1714557600000 1714557600000 1714557600000
                 1714557600001 in
  let p := mkChatPage [] false in
  let s := signals_run clock (map Delta ["Hel"; "lo"; "!"] ++ [Complete])
             (handleSendMessage_start clock "Hola" p) in
  (forall m, In m (shown p) -> id m <> assistantId clock)
  /\ (user_now clock <= assistant_now clock)%Z
  /\ map content (shown (page_state s)) = ["Hola"; "Hello!"]
  /\ isTyping (page_state s) = false.
Proof.
  intros clock p s.
  assert (Hfresh : forall m, In m (shown p) -> id m <> assistantId clock)
    by (intros m []).
  assert (Hclock : (user_now clock <= assistant_now clock)%Z)
    by (cbn; lia).
  destruct (reply_is_the_deltas_joined clock "Hola" p ["Hel"; "lo"; "!"]
              Hfresh Hclock) as [Hshown Htyping].
  split; [exact Hfresh|]. split; [exact Hclock|]. split; [|exact Htyping].
  unfold s. rewrite Hshown. reflexivity.
Defined.

(** X18: a completion callback called a second time right after the
    first leaves the page as the first one left it. *)
Theorem second_completion_changes_nothing clock signals s :
  signals_run clock (signals ++ [Complete; Complete]) s
  = signals_run clock (signals ++ [Complete]) s.
Proof.
  rewrite !signals_run_app.
  generalize (signals_run clock signals s). intros s'.
  cbn [signals_run fold_left signal]. unfold onComplete.
  cbn [page_state shown isTyping assistantContent].
  destruct (String.eqb (assistantContent s') ""); [|reflexivity].
  now rewrite with_content_twice.
Qed.

End ChatFacts.

(** * Facts about the text after the last newline *)

Module PendingFacts.
Import JsString Json Api Pending JsStringFacts ApiFacts.

Lemma upto_last_LF_newline_free s :
  newline_free s = true -> upto_last_LF s = "".
Proof.
  intros H. destruct s; [reflexivity|]. cbn [upto_last_LF]. now rewrite H.
Qed.

(** A text that splits into one piece has no newline. *)
Lemma split_LF_single s p : split_LF s = [p] -> newline_free s = true.
Proof.
  revert p. induction s as [|c s IH]; intros p Hsplit; [reflexivity|].
  cbn [split_LF newline_free] in *.
  pose proof (split_LF_nonempty s) as Hne.
  destruct (Ascii.eqb c LF).
  - destruct (split_LF s); [congruence | discriminate].
  - destruct (split_LF s) as [|q [|r rs]]; [congruence | | discriminate].
    cbn [negb andb]. now apply (IH q).
Qed.

(** The piece after the last newline is not changed by a character in
    front of a text that has a newline. *)
Lemma pop_split_LF_String c s :
  newline_free (String c s) = false ->
  pop (split_LF (String c s)) = pop (split_LF s).
Proof.
  intros Hfree. cbn [split_LF newline_free] in *.
  pose proof (split_LF_nonempty s) as Hne.
  destruct (Ascii.eqb c LF).
  - unfold pop. destruct (split_LF s); [congruence | reflexivity].
  - cbn [negb andb] in Hfree.
    destruct (split_LF s) as [|q [|r rs]] eqn:Hsplit; [congruence| |].
    + rewrite (split_LF_single s q Hsplit) in Hfree. discriminate.
    + reflexivity.
Qed.

(** A text is what comes up to its last newline, then the piece after
    it. *)
Lemma upto_last_LF_pop s : upto_last_LF s +:+ pop (split_LF s) = s.
Proof.
  induction s as [|c s IH]; [reflexivity|].
  cbn [upto_last_LF].
  destruct (newline_free (String c s)) eqn:Hfree.
  - now rewrite (split_LF_newline_free _ Hfree).
  - rewrite app_String, (pop_split_LF_String _ _ Hfree). now rewrite IH.
Qed.

(** What comes up to the last newline ends with a newline. *)
Lemma upto_last_LF_ends s :
  newline_free s = false -> exists y, upto_last_LF s = y +:+ String LF "".
Proof.
  induction s as [|c s IH]; [discriminate|]. intros Hfree.
  cbn [upto_last_LF]. rewrite Hfree.
  destruct (newline_free s) eqn:Hs.
  - exists "". rewrite (upto_last_LF_newline_free _ Hs).
    cbn [newline_free] in Hfree. rewrite Hs, andb_true_r in Hfree.
    apply negb_false_iff, Ascii.eqb_eq in Hfree. now subst c.
  - destruct (IH eq_refl) as [y Hy]. exists (String c y). now rewrite Hy.
Qed.

Lemma pop_split_LF_ends x : pop (split_LF (x +:+ String LF "")) = "".
Proof.
  rewrite pop_split_LF_app.
  rewrite <- (app_empty_r (pop (split_LF x) +:+ String LF "")).
  change (pop (split_LF x) +:+ String LF "") with (ln (pop (split_LF x))).
  rewrite split_LF_ln by apply pop_split_LF_newline_free. reflexivity.
Qed.

Lemma upto_last_LF_app a b :
  upto_last_LF (a +:+ b)
  = if newline_free b then upto_last_LF a else a +:+ upto_last_LF b.
Proof.
  induction a as [|c a IH].
  - rewrite !app_empty_l.
    destruct (newline_free b) eqn:Hb; [|reflexivity].
    now apply upto_last_LF_newline_free.
  - rewrite app_String. cbn [upto_last_LF newline_free].
    rewrite newline_free_app, IH.
    destruct (newline_free b); [now rewrite andb_true_r|].
    now rewrite !andb_false_r.
Qed.

Lemma newline_free_received values :
  newline_free (received values) = forallb newline_free values.
Proof.
  induction values as [|value rest IH]; [reflexivity|].
  cbn [received fold_right forallb].
  change (fold_right append "" rest) with (received rest).
  now rewrite newline_free_app, IH.
Qed.

(** The text of the cut stream is the text received up to its last
    newline. *)
Lemma received_cut values :
  received (cut_after_last_LF values) = upto_last_LF (received values).
Proof.
  induction values as [|value rest IH]; [reflexivity|].
  cbn [received fold_right cut_after_last_LF].
  change (fold_right append "" rest) with (received rest).
  rewrite upto_last_LF_app, newline_free_received.
  destruct (forallb newline_free rest).
  - destruct (newline_free value) eqn:Hv.
    + now rewrite (upto_last_LF_newline_free _ Hv).
    + cbn [received fold_right]. apply app_empty_r.
  - cbn [received fold_right].
    change (fold_right append "" (cut_after_last_LF rest))
      with (received (cut_after_last_LF rest)).
    now rewrite IH.
Qed.

Section Decoder.

Variable JSON_parse : string -> option JsValue.

Local Abbreviation on_chunk := (on_chunk JSON_parse).
Local Abbreviation read_loop := (read_loop JSON_parse).
Local Abbreviation sendChatStreamMessage := (sendChatStreamMessage JSON_parse).

(** A chunk without a newline, on a fragment without one, makes no call
    and only extends the fragment. *)
Lemma on_chunk_newline_free buffer value :
  newline_free buffer = true -> newline_free value = true ->
  on_chunk buffer value = ([], buffer +:+ value).
Proof.
  intros Hb Hv. unfold Api.on_chunk.
  rewrite (split_LF_newline_free (buffer +:+ value))
    by (now rewrite newline_free_app, Hb, Hv).
  reflexivity.
Qed.

Lemma read_loop_newline_free values : forall buffer,
  newline_free buffer = true ->
  forallb newline_free values = true ->
  read_loop buffer values = ([], buffer +:+ received values).
Proof.
  induction values as [|value rest IH]; intros buffer Hb Hall.
  - cbn [Api.read_loop received fold_right]. now rewrite app_empty_r.
  - cbn [forallb] in Hall. apply andb_prop in Hall as [Hv Hrest].
    rewrite read_loop_cons, (on_chunk_newline_free _ _ Hb Hv).
    cbn [fst snd app].
    rewrite IH by (rewrite ?newline_free_app, ?Hb, ?Hv; auto).
    cbn [fst snd received fold_right].
    change (fold_right append "" rest) with (received rest).
    now rewrite app_assoc.
Qed.

(** The calls made for a stream are those made for the stream cut after
    its last newline, and the cut stream leaves nothing new in
    [buffer]. *)
Lemma read_loop_cut values : forall buffer,
  newline_free buffer = true ->
  fst (read_loop buffer values)
  = fst (read_loop buffer (cut_after_last_LF values))
  /\ snd (read_loop buffer (cut_after_last_LF values))
     = if forallb newline_free values then buffer else "".
Proof.
  induction values as [|value rest IH]; intros buffer Hb; [now split|].
  cbn [cut_after_last_LF forallb].
  destruct (forallb newline_free rest) eqn:Hrest.
  - destruct (newline_free value) eqn:Hv.
    + rewrite read_loop_newline_free by (cbn [forallb]; now rewrite ?Hv, ?Hrest).
      now split.
    + cbn [andb].
      destruct (upto_last_LF_ends _ Hv) as [y Hy].
      assert (Hsplit : on_chunk buffer value
                       = (fst (on_chunk buffer (upto_last_LF value)),
                          snd (on_chunk buffer (upto_last_LF value))
                          +:+ pop (split_LF value))).
      { rewrite <- (upto_last_LF_pop value) at 1.
        apply on_chunk_tail, pop_split_LF_newline_free. }
      assert (Hnone : snd (on_chunk buffer (upto_last_LF value)) = "").
      { unfold Api.on_chunk. cbn [snd].
        rewrite Hy, <- app_assoc. apply pop_split_LF_ends. }
      rewrite !read_loop_cons, Hsplit. cbn [fst snd].
      rewrite Hnone, app_empty_l.
      rewrite read_loop_newline_free
        by (apply pop_split_LF_newline_free || exact Hrest).
      cbn [Api.read_loop fst snd]. now split.
  - rewrite andb_false_r. rewrite !read_loop_cons. cbn [fst snd].
    destruct (IH (snd (on_chunk buffer value))
                (on_chunk_buffer_newline_free JSON_parse _ _)) as [Hcalls Hleft].
    rewrite Hcalls, Hleft. now split.
Qed.

(** C9: the text received after the last newline is held back in [buffer]
    and never decoded.  The text received is the text of the stream cut
    after its last newline followed by that fragment; the fragment is what
    [buffer] holds when the loop ends; and the calls made, whatever the
    chunks, the status of the response and the way reading ends, are
    those made for the cut stream, in which no such fragment is left. *)
Theorem pending_fragment_never_decoded values is_ok code parsed how :
  let fragment := pop (split_LF (received values)) in
  let cut := cut_after_last_LF values in
  received values = received cut +:+ fragment
  /\ newline_free fragment = true
  /\ pop (split_LF (received cut)) = ""
  /\ snd (read_loop "" values) = fragment
  /\ snd (read_loop "" cut) = ""
  /\ fst (read_loop "" values) = fst (read_loop "" cut)
  /\ sendChatStreamMessage
       (FetchResolved
          (mkResponse is_ok code parsed (Some (mkBody values how))))
     = sendChatStreamMessage
         (FetchResolved
            (mkResponse is_ok code parsed (Some (mkBody cut how)))).
Proof.
  intros fragment cut. subst fragment cut.
  destruct (read_loop_cut values "" eq_refl) as [Hcalls Hleft].
  assert (Hnone : snd (read_loop "" (cut_after_last_LF values)) = "")
    by (rewrite Hleft; now destruct (forallb newline_free values)).
  split; [now rewrite received_cut, upto_last_LF_pop|].
  split; [apply pop_split_LF_newline_free|].
  split.
  { pose proof (read_loop_buffer JSON_parse (cut_after_last_LF values) ""
                  eq_refl) as Hcut.
    rewrite app_empty_l in Hcut. now rewrite <- Hcut. }
  split; [now rewrite read_loop_buffer by reflexivity|].
  split; [exact Hnone|]. split; [exact Hcalls|].
  unfold Api.sendChatStreamMessage.
  destruct is_ok.
  - rewrite (try_block_body JSON_parse
               (mkResponse true code parsed (Some (mkBody values how)))
               (mkBody values how) eq_refl eq_refl).
    rewrite (try_block_body JSON_parse
               (mkResponse true code parsed
                  (Some (mkBody (cut_after_last_LF values) how)))
               (mkBody (cut_after_last_LF values) how) eq_refl eq_refl).
    cbn [chunks ending]. now rewrite Hcalls.
  - unfold Api.try_block, http_error. cbn [bind ret ok json status].
    now destruct (js_get _ "error").
Qed.

End Decoder.

Lemma pending_fragment_never_decoded_witness :
  let values := [ln "data: Hel" +:+ "data: l"; "o"] in
  cut_after_last_LF values = [ln "data: Hel"]
  /\ snd (read_loop JSON_parse_flat "" values) = "data: lo"
  /\ sendChatStreamMessage JSON_parse_flat
       (FetchResolved (mkResponse true 200 None (Some (mkBody values Done))))
     = ([OnDelta "Hel"; OnComplete], Fulfilled).
Proof.
  intros values.
  destruct (pending_fragment_never_decoded JSON_parse_flat values
              true 200%Z None Done)
    as (_ & _ & _ & Hbuffer & _ & _ & Hcalls).
  split; [reflexivity|]. split; [rewrite Hbuffer; reflexivity|].
  rewrite Hcalls. reflexivity.
Defined.

End PendingFacts.

(** * Facts about the stream session controller *)

Module ControllerFacts.
Import JsString Json Api Controller JsStringFacts ApiFacts.




Section Decoder.

Variable JSON_parse : string -> option JsValue.

Local Abbreviation process_line := (process_line JSON_parse).
Local Abbreviation for_lines := (for_lines JSON_parse).
Local Abbreviation on_chunk := (on_chunk JSON_parse).
Local Abbreviation read_loop := (read_loop JSON_parse).
Local Abbreviation sendChatStreamMessage := (sendChatStreamMessage JSON_parse).



End Decoder.

(** The exchange [init], [Hel], [lo], [!], [complete], one frame per
    chunk, as the caller of the controller receives it. *)
Example hello_through_the_controller :
  let calls :=
    fst (sendChatStreamMessage JSON_parse_flat
           (streaming
              [ln "event: init"
               +:+ ln ("data: {" +:+ quoted "conversationId" +:+ ":"
                       +:+ quoted "abc" +:+ "}") +:+ ln "";
               ln "data: Hel" +:+ ln "";
               ln "data: lo" +:+ ln "";
               ln "data: !" +:+ ln "";
               ln "event: complete" +:+ ln "data: {}" +:+ ln ""])) in
  completions calls = 2
  /\ controller false calls
     = [CallerInit (JsString "abc"); CallerDelta "Hel"; CallerDelta "lo";
        CallerDelta "!"; CallerComplete].
Proof. split; reflexivity. Qed.


End ControllerFacts.
